(** * tensorboard_reducer/write.py: the persistence pipeline

    A shallow embedding of [force_rm_or_raise], [write_tb_events] and
    [write_csv].  Python dicts are association lists in insertion order,
    the file system is a finite map from paths to nodes, exceptions are a
    [result] type and the effects of the three functions are threaded
    through a small state-and-exception monad. *)

From Stdlib Require Import ZArith String Ascii.
From stdpp Require Import base list strings gmap.

Local Open Scope string_scope.

(** ** Exceptions and the monad *)

(** The exceptions write.py can see.  [ValueError] is built by
    [force_rm_or_raise] (lines 30-34), [KeyError] is a failed dict access,
    [OSError] is what the event writer reports when its log directory
    cannot be created. *)
Inductive exn : Type :=
  | FileExistsError (msg : string)
  | ValueError (msg : string)
  | IndexError
  | AssertionError (msg : string)
  | KeyError (key : string)
  | OSError (path : string).

Inductive result (A : Type) : Type :=
  | Ok (a : A)
  | Raise (e : exn).
Arguments Ok {A} a.
Arguments Raise {A} e.

Definition M (S A : Type) : Type := S -> result A * S.

Definition ret {S A} (a : A) : M S A := fun s => (Ok a, s).

Definition raise {S A} (e : exn) : M S A := fun s => (Raise e, s).

Definition bind {S A B} (c : M S A) (k : A -> M S B) : M S B :=
  fun s =>
    match c s with
    | (Ok a, s') => k a s'
    | (Raise e, s') => (Raise e, s')
    end.

Definition gets {S A} (f : S -> A) : M S A := fun s => (Ok (f s), s).

Definition modify {S} (f : S -> S) : M S unit := fun s => (Ok tt, f s).

Declare Scope py_scope.
Delimit Scope py_scope with py.
Notation "'let*' x ':=' c 'in' k" := (bind c (fun x => k))
  (at level 10, x pattern, c at level 100, k at level 200) : py_scope.
Notation "c ';;' k" := (bind c (fun _ => k))
  (at level 100, k at level 200, right associativity) : py_scope.

(** [for x in l: body x] *)
Fixpoint for_each {S A} (l : list A) (body : A -> M S unit) : M S unit :=
  match l with
  | [] => ret tt
  | x :: l' => bind (body x) (fun _ => for_each l' body)
  end.

(** ** Strings *)

(** [s.startswith(p)] *)
Definition startswith (s p : string) : bool := String.prefix p s.

(** [s.endswith(suf)]: some tail of [s] is [suf]. *)
Fixpoint endswith (s suf : string) : bool :=
  if String.eqb s suf then true
  else match s with
       | EmptyString => false
       | String _ s' => endswith s' suf
       end.

(** ** The file system *)

(** A path names a regular file or a directory; a directory carries its
    listing in the order [os.listdir] returns it, so that removing the
    path removes the tree below it. *)
Inductive node : Type :=
  | File
  | Dir (children : list string).

#[global] Instance node_eq_dec : EqDecision node.
Proof. solve_decision. Defined.

Abbreviation FS := (gmap string node).

Definition os_path_exists (path : string) (fs : FS) : bool :=
  match fs !! path with Some _ => true | None => false end.

Definition os_path_isdir (path : string) (fs : FS) : bool :=
  match fs !! path with Some (Dir _) => true | _ => false end.

Definition os_listdir (path : string) (fs : FS) : list string :=
  match fs !! path with Some (Dir l) => l | _ => [] end.

(** [os.system(f"rm -rf {path}")], for a path that is one shell word. *)
Definition rm_rf (path : string) (fs : FS) : FS := delete path fs.

(** ** force_rm_or_raise (write.py, lines 8-39) *)

Definition unsafe_msg (path : string) : string :=
  "Received the overwrite flag but the content of '" ++ path ++
  "' does not look like it was written by this program. Please make sure you really want to delete '"
  ++ path ++ "' and then do so manually.".

Definition exists_msg (path : string) : string :=
  "'" ++ path ++
  "' already exists, pass overwrite=True (-f/--overwrite in CLI) to proceed anyway".

(** [os.listdir(path)[0]] *)
Definition first_child (path : string) : M FS string :=
  fun fs =>
    match os_listdir path fs with
    | [] => (Raise IndexError, fs)
    | c :: _ => (Ok c, fs)
    end.

(** [os.path.isdir(path) and os.listdir(path)[0].startswith("events.out")] *)
Definition is_tb_run_dir (path : string) : M FS bool :=
  (let* d := gets (os_path_isdir path) in
   if d : bool then
     let* c := first_child path in ret (startswith c "events.out")
   else ret false)%py.

Definition force_rm_or_raise (path : string) (overwrite : bool) : M FS unit :=
  (let* e := gets (os_path_exists path) in
   if e : bool then
     let is_csv_file := endswith path ".csv" in
     let* is_tb := is_tb_run_dir path in
     if overwrite && (is_csv_file || is_tb) then
       modify (rm_rf path)
     else if overwrite then
       (* the exception object is built and dropped: there is no [raise] *)
       let _ := ValueError (unsafe_msg path) in
       ret tt
     else
       raise (FileExistsError (exists_msg path))
   else ret tt)%py.

(** The heuristic of lines 22-25 on a node that can be inspected. *)
Definition looks_like_ours (path : string) (n : node) : bool :=
  endswith path ".csv" ||
  match n with
  | Dir (c :: _) => startswith c "events.out"
  | _ => false
  end.

(** ** Python dicts: association lists in insertion order, keys unique *)

Definition dict (A : Type) : Type := list (string * A).

(** Lookup by key in a list of pairs, first match; serves dicts (string
    keys) and the index of a series (integer steps). *)
Fixpoint assoc {K A} `{EqDecision K} (k : K) (l : list (K * A)) : option A :=
  match l with
  | [] => None
  | (k', v) :: l' => if decide (k = k') then Some v else assoc k l'
  end.

(** [d.get(k)] *)
Definition dict_get {A} (k : string) (d : dict A) : option A := assoc k d.

(** [k in d.keys()] *)
Definition dict_in {A} (k : string) (d : dict A) : bool :=
  match dict_get k d with Some _ => true | None => false end.

(** [del d[k]] *)
Fixpoint dict_del {A} (k : string) (d : dict A) : dict A :=
  match d with
  | [] => []
  | (k', v) :: d' => if decide (k = k') then d' else (k', v) :: dict_del k d'
  end.

Definition dict_keys {A} (d : dict A) : list string := d.*1.
Definition dict_values {A} (d : dict A) : list A := d.*2.

(** The invariant of a Python dict. *)
Definition dict_wf {A} (d : dict A) : Prop := NoDup (dict_keys d).

(** [f"{outdir}-{op}"] *)
Definition dest (outdir op : string) : string := outdir ++ "-" ++ op.

(** ** The reduced data and the event writer *)

Section Writer.

(** Metric values are floats; the writers only add and subtract them. *)
Context {V : Type} (vadd vsub : V -> V -> V).

(** A series: (step, value) pairs in index order. *)
Definition Series : Type := list (Z * V).
Definition TagTable : Type := dict Series.
Definition Dataset : Type := dict TagTable.

(** What a [SummaryWriter] is asked to record: [add_scalar] and
    [add_scalars]. *)
Inductive record : Type :=
  | Scalar (tag : string) (value : V) (step : Z)
  | Scalars (tag : string) (values : list (string * V)) (step : Z).

(** A writer buffers its records until [close]. *)
Record SummaryWriter : Type := mkWriter {
  logdir : string;
  pending : list record
}.

(** The caller's mapping [data_to_write], the file system, and the event
    logs closed so far (directory, records), oldest first. *)
Record State : Type := mkState {
  st_data : Dataset;
  st_fs : FS;
  st_sinks : list (string * list record)
}.

Definition set_data (d : Dataset) (st : State) : State :=
  mkState d (st_fs st) (st_sinks st).

Definition lift_fs {A} (c : M FS A) : M State A :=
  fun st =>
    match c (st_fs st) with
    | (r, fs') => (r, mkState (st_data st) fs' (st_sinks st))
    end.

(** [data_to_write.pop(k)] *)
Definition data_pop (k : string) : M State TagTable :=
  fun st =>
    match dict_get k (st_data st) with
    | Some v => (Ok v, set_data (dict_del k (st_data st)) st)
    | None => (Raise (KeyError k), st)
    end.

(** [data_to_write[k]] *)
Definition data_getitem (k : string) : M State TagTable :=
  fun st =>
    match dict_get k (st_data st) with
    | Some v => (Ok v, st)
    | None => (Raise (KeyError k), st)
    end.

Definition event_file : string := "events.out.tfevents".

(** [SummaryWriter(d)]: the log directory is created when missing and
    receives a new event file. *)
Definition new_writer (d : string) : M State SummaryWriter :=
  fun st =>
    match st_fs st !! d with
    | Some File => (Raise (OSError d), st)
    | Some (Dir l) =>
        (Ok (mkWriter d []),
         mkState (st_data st) (<[d := Dir (l ++ [event_file])]> (st_fs st))
                 (st_sinks st))
    | None =>
        (Ok (mkWriter d []),
         mkState (st_data st) (<[d := Dir [event_file]]> (st_fs st))
                 (st_sinks st))
    end.

Definition add_scalar (w : SummaryWriter) (tag : string) (value : V)
    (step : Z) : SummaryWriter :=
  mkWriter (logdir w) (pending w ++ [Scalar tag value step]).

Definition add_scalars (w : SummaryWriter) (tag : string)
    (values : list (string * V)) (step : Z) : SummaryWriter :=
  mkWriter (logdir w) (pending w ++ [Scalars tag values step]).

(** [writer.close()]: the buffered records become the log's content. *)
Definition close (w : SummaryWriter) : M State unit :=
  modify (fun st =>
    mkState (st_data st) (st_fs st) (st_sinks st ++ [(logdir w, pending w)])).

(** [stds.to_numpy()] *)
Definition to_numpy (s : Series) : list V := s.*2.

(** ** write_tb_events (write.py, lines 42-100) *)

(** Lines 74-80. *)
Definition write_band (mean_dict std_dict : TagTable) (w : SummaryWriter)
    : SummaryWriter :=
  fold_left
    (fun w '((tag, means), stds) =>
       fold_left
         (fun w '((step, mean), std) =>
            add_scalars w tag
              [("mean+std", vadd mean std); ("mean-std", vsub mean std)] step)
         (zip means (to_numpy stds)) w)
    (zip mean_dict (dict_values std_dict)) w.

(** Lines 93-95. *)
Definition write_scalars (events_dict : TagTable) (w : SummaryWriter)
    : SummaryWriter :=
  fold_left
    (fun w '(tag, series) =>
       fold_left (fun w '(step, value) => add_scalar w tag value step)
                 series w)
    events_dict w.

(** Lines 65-82: the mean +/- std band. *)
Definition write_std (outdir : string) (overwrite : bool) : M State unit :=
  (let* std_dict := data_pop "std" in
   let* mean_dict := data_getitem "mean" in
   let std_dir := dest outdir "std" in
   lift_fs (force_rm_or_raise std_dir overwrite) ;;
   let* writer := new_writer std_dir in
   let writer := write_band mean_dict std_dict writer in
   close writer)%py.

(** Lines 87-100: the body of the loop over the reduce operations. *)
Definition write_op (outdir : string) (overwrite : bool)
    (item : string * TagTable) : M State unit :=
  (let '(op, events_dict) := item in
   let op_outdir := dest outdir op in
   lift_fs (force_rm_or_raise op_outdir overwrite) ;;
   let* writer := new_writer op_outdir in
   let writer := write_scalars events_dict writer in
   close writer)%py.

Definition write_tb_events (outdir : string) (overwrite : bool)
    : M State unit :=
  (let* d := gets st_data in
   (if dict_in "mean" d && dict_in "std" d then write_std outdir overwrite
    else ret tt) ;;
   let* d := gets st_data in
   for_each d (write_op outdir overwrite))%py.

(** *** What the event logs are expected to hold *)

(** One point per (tag, step), tag after tag. *)
Definition scalar_records (events_dict : TagTable) : list record :=
  flat_map
    (fun '(tag, series) =>
       map (fun '(step, value) => Scalar tag value step) series)
    events_dict.

Definition plain_sink (outdir : string) (item : string * TagTable)
    : string * list record :=
  (dest outdir item.1, scalar_records item.2).

Definition band (tag : string) (step : Z) (mean std : V) : record :=
  Scalars tag [("mean+std", vadd mean std); ("mean-std", vsub mean std)] step.

(** The band as the loops pair it: by position, tags and steps. *)
Definition band_by_position (mean_dict std_dict : TagTable) : list record :=
  flat_map
    (fun '((tag, means), stds) =>
       flat_map (fun '((step, mean), std) => [band tag step mean std])
                (zip means (to_numpy stds)))
    (zip mean_dict (dict_values std_dict)).

(** The band paired by name: the std value of the same tag and step. *)
Definition band_by_tag (mean_dict std_dict : TagTable) : list record :=
  flat_map
    (fun '(tag, means) =>
       match dict_get tag std_dict with
       | Some stds =>
           flat_map
             (fun '(step, mean) =>
                match assoc step stds with
                | Some std => [band tag step mean std]
                | None => []
                end)
             means
       | None => []
       end)
    mean_dict.

(** Lines 63-66: is the band written, and what is then left to loop on. *)
Definition has_pair (d : Dataset) : bool :=
  dict_in "mean" d && dict_in "std" d.

Definition remaining (d : Dataset) : Dataset :=
  if has_pair d then dict_del "std" d else d.

Definition std_sink (outdir : string) (d : Dataset)
    : list (string * list record) :=
  match dict_get "mean" d, dict_get "std" d with
  | Some mean_dict, Some std_dict =>
      [(dest outdir "std", band_by_position mean_dict std_dict)]
  | _, _ => []
  end.

(** The event logs of a complete call, in the order they are closed. *)
Definition expected_sinks (outdir : string) (d : Dataset)
    : list (string * list record) :=
  (std_sink outdir d ++ map (plain_sink outdir) (remaining d))%list.

(** Tags in the same order and, tag by tag, the same steps without
    repetition. *)
Definition aligned (mean_dict std_dict : TagTable) : Prop :=
  dict_wf std_dict /\
  dict_keys mean_dict = dict_keys std_dict /\
  forall (tag : string) (means stds : Series),
    (tag, means) ∈ mean_dict -> dict_get tag std_dict = Some stds ->
    means.*1 = stds.*1 /\ NoDup stds.*1.

(** A destination the guard lets through and the writer can open. *)
Definition dest_ready (overwrite : bool) (path : string) (fs : FS) : bool :=
  match fs !! path with
  | None => true
  | Some File => overwrite && endswith path ".csv"
  | Some (Dir []) => false
  | Some (Dir (_ :: _)) => overwrite
  end.

End Writer.

(** ** The table written by write_csv *)

(** The union of two row indexes, first appearance first.  Only which
    steps occur, and that none occurs twice, is relied upon, not the order
    of the rows. *)
Definition index_union (l k : list Z) : list Z := l ++ list_difference k l.

Definition union_all (ls : list (list Z)) : list Z := foldr index_union [] ls.

Section Table.

Context {V : Type}.

(** Modelled from the spec: the two-level-keyed table of section 4.3,
    which write.py obtains from pandas.  A frame has an optional index
    name, its row index (steps), its column labels and, column by column,
    one cell per row; an empty cell is [None]. *)
Record DataFrame (C : Type) : Type := mkDF {
  df_index_name : option string;
  df_index : list Z;
  df_columns : list C;
  df_values : list (list (option V))
}.
Arguments mkDF {C} _ _ _ _.
Arguments df_index_name {C} _.
Arguments df_index {C} _.
Arguments df_columns {C} _.
Arguments df_values {C} _.

(** The cell of a frame at a column label and a step. *)
Definition df_at {C} `{EqDecision C} (df : DataFrame C) (c : C) (step : Z)
    : option V :=
  match assoc c (zip (df_columns df) (df_values df)) with
  | Some col =>
      match assoc step (zip (df_index df) col) with
      | Some cell => cell
      | None => None
      end
  | None => None
  end.

(** A column carried over to another row index: steps it does not have
    become empty cells. *)
Definition reindex (index : list Z) (col : list (option V))
    (new_index : list Z) : list (option V) :=
  map (fun step =>
         match assoc step (zip index col) with
         | Some cell => cell
         | None => None
         end) new_index.

(** The column of a series over a row index. *)
Definition series_column (index : list Z) (s : Series (V:=V))
    : list (option V) :=
  map (fun step => assoc step s) index.

(** Modelled from the spec: [pd.DataFrame(dic)], one flat table per
    operation: a column per tag, rows joined on step. *)
Definition pd_DataFrame (dic : TagTable (V:=V)) : DataFrame string :=
  let index := union_all (map (fun s : Series => s.*1) (dict_values dic)) in
  mkDF None index (dict_keys dic)
       (map (series_column index) (dict_values dic)).

(** The tables side by side under the compound key (operation, tag),
    rows joined on step (outer join). *)
Definition concat_columns (dfs : dict (DataFrame string))
    : DataFrame (string * string) :=
  let index := union_all (map df_index (dict_values dfs)) in
  mkDF None index
    (flat_map (fun '(op, df) => map (pair op) (df_columns df)) dfs)
    (flat_map
       (fun '(op, df) =>
          map (fun col => reindex (df_index df) col index) (df_values df))
       dfs).

(** Modelled from the spec: [pd.concat(dict_of_dfs, axis=1)]; pandas
    refuses an empty collection. *)
Definition pd_concat (dfs : dict (DataFrame string))
    : result (DataFrame (string * string)) :=
  match dfs with
  | [] => Raise (ValueError "No objects to concatenate")
  | _ :: _ => Ok (concat_columns dfs)
  end.

(** [columns.swaplevel(0, 1)] *)
Definition swaplevel (cols : list (string * string)) : list (string * string) :=
  map (fun '(a, b) => (b, a)) cols.

(** Lines 127-131: the table handed to [to_csv]. *)
Definition csv_table (data_to_write : Dataset (V:=V))
    : result (DataFrame (string * string)) :=
  let dict_of_dfs :=
    map (fun '(op, dic) => (op, pd_DataFrame dic)) data_to_write in
  match pd_concat dict_of_dfs with
  | Ok df =>
      let df := mkDF (df_index_name df) (df_index df)
                     (swaplevel (df_columns df)) (df_values df) in
      let df := mkDF (Some "step") (df_index df) (df_columns df)
                     (df_values df) in
      Ok df
  | Raise e => Raise e
  end.

(** The file system and the tables [to_csv] has written (path, table). *)
Record CsvState : Type := mkCsv {
  cs_fs : FS;
  cs_files : list (string * DataFrame (string * string))
}.

Definition lift_csv {A} (c : M FS A) : M CsvState A :=
  fun cs =>
    match c (cs_fs cs) with
    | (r, fs') => (r, mkCsv fs' (cs_files cs))
    end.

Definition lift_result {S A} (r : result A) : M S A := fun s => (r, s).

(** [df.to_csv(path)]: the table sink; a directory cannot be written. *)
Definition to_csv (df : DataFrame (string * string)) (path : string)
    : M CsvState unit :=
  fun cs =>
    match cs_fs cs !! path with
    | Some (Dir _) => (Raise (OSError path), cs)
    | _ => (Ok tt, mkCsv (<[path := File]> (cs_fs cs))
                         (cs_files cs ++ [(path, df)])%list)
    end.

(** [f"{csv_path=} should have a .csv extension"], for a path whose
    [repr] needs no escapes. *)
Definition assert_msg (csv_path : string) : string :=
  "csv_path='" ++ csv_path ++ "' should have a .csv extension".

(** [assert cond, msg] *)
Definition assert_ {S} (cond : bool) (msg : string) : M S unit :=
  if cond then ret tt else raise (AssertionError msg).

(** ** write_csv (write.py, lines 103-132) *)
Definition write_csv (data_to_write : Dataset (V:=V)) (csv_path : string)
    (overwrite : bool) : M CsvState unit :=
  (assert_ (endswith csv_path ".csv") (assert_msg csv_path) ;;
   lift_csv (force_rm_or_raise csv_path overwrite) ;;
   let* df := lift_result (csv_table data_to_write) in
   to_csv df csv_path)%py.

(** The (operation, tag) concatenation of the column labels. *)
Definition op_tag_columns (d : Dataset (V:=V)) : list (string * string) :=
  flat_map (fun '(op, dic) => map (pair op) (dict_keys dic)) d.

(** The steps of a dataset: those of every series of every table. *)
Definition table_index (d : Dataset (V:=V)) : list Z :=
  union_all
    (map (fun item : string * TagTable =>
            union_all (map (fun s : Series => s.*1) (dict_values item.2)))
         d).

(** The (operation, tag, step, value) quadruples of a dataset, as a
    function from operation, tag and step to the value, if any. *)
Definition value_at (d : Dataset (V:=V)) (op tag : string) (step : Z)
    : option V :=
  match dict_get op d with
  | Some table =>
      match dict_get tag table with
      | Some series => assoc step series
      | None => None
      end
  | None => None
  end.

End Table.

Arguments mkDF {V C} _ _ _ _.
Arguments df_index_name {V C} _.
Arguments df_index {V C} _.
Arguments df_columns {V C} _.
Arguments df_values {V C} _.


(** ** Sample data *)

Module Sample.
Local Open Scope Z_scope.

(** The scenario of the specification, with integer values: the mean and
    std of one tag over two steps. *)
Definition loss_mean : TagTable (V:=Z) := [("loss", [(0, 10); (1, 5)])].
Definition loss_std : TagTable (V:=Z) := [("loss", [(0, 1); (1, 2)])].
Definition loss_data : Dataset (V:=Z) := [("mean", loss_mean); ("std", loss_std)].

(** Two tags, listed in a different order by the two tables. *)
Definition ab_mean : TagTable (V:=Z) := [("a", [(0, 1)]); ("b", [(0, 2)])].
Definition ab_std : TagTable (V:=Z) := [("b", [(0, 10)]); ("a", [(0, 20)])].
Definition ab_data : Dataset (V:=Z) := [("mean", ab_mean); ("std", ab_std)].

(** A dataset whose operations do not share their steps. *)
Definition ragged : Dataset (V:=Z) :=
  [("mean", [("loss", [(0, 10); (2, 5)])]); ("max", [("loss", [(1, 7)])])].

(** An empty file system, and one where the band log is already there. *)
Definition fresh (d : Dataset (V:=Z)) : State (V:=Z) := mkState d ∅ [].
Definition taken (d : Dataset (V:=Z)) : State (V:=Z) :=
  mkState d (<["run-std" := Dir ["events.out.tfevents"]]> ∅) [].

End Sample.

(** ** More sample data *)

Module Sample2.
Import Sample.
Local Open Scope Z_scope.

(** A standard deviation handed in without its mean. *)
Definition std_only : Dataset (V:=Z) := [("std", loss_std)].


(** A mean table with one tag more than the std table has. *)
Definition acc_extra : TagTable (V:=Z) := [("acc", [(0, 3); (1, 4)])].

(** The values of [loss_std] under another tag and other steps. *)
Definition renamed_std : TagTable (V:=Z) := [("other", [(7, 1); (9, 2)])].

(** Nothing written yet, on an empty file system or beside an old table. *)
Definition no_csv : CsvState (V:=Z) := mkCsv ∅ [].

End Sample2.

(** * Properties *)

(** ** The overwrite guard, branch by branch *)

Ltac guard_eval H :=
  unfold force_rm_or_raise, is_tb_run_dir, first_child, bind, gets, ret,
    raise, modify, os_path_exists, os_path_isdir, os_listdir;
  repeat (rewrite H; simpl).

Lemma guard_absent (path : string) (overwrite : bool) (fs : FS) :
  fs !! path = None ->
  force_rm_or_raise path overwrite fs = (Ok tt, fs).
Proof. intros H. now guard_eval H. Qed.

Lemma guard_empty_dir (path : string) (overwrite : bool) (fs : FS) :
  fs !! path = Some (Dir []) ->
  force_rm_or_raise path overwrite fs = (Raise IndexError, fs).
Proof. intros H. now guard_eval H. Qed.

Lemma guard_keep (path : string) (fs : FS) (n : node) :
  fs !! path = Some n -> n <> Dir [] ->
  force_rm_or_raise path false fs
  = (Raise (FileExistsError (exists_msg path)), fs).
Proof.
  intros H Hn. destruct n as [|[|c l]]; [| congruence |]; now guard_eval H.
Qed.

Lemma guard_overwrite (path : string) (fs : FS) (n : node) :
  fs !! path = Some n -> n <> Dir [] ->
  force_rm_or_raise path true fs
  = (Ok tt, if looks_like_ours path n then rm_rf path fs else fs).
Proof.
  intros H Hn. unfold looks_like_ours.
  destruct n as [|[|c l]]; [| congruence |]; guard_eval H.
  - rewrite orb_false_r. now destruct (endswith path ".csv").
  - now destruct (endswith path ".csv" || startswith c "events.out").
Qed.

(** The guard never touches another path. *)
Lemma guard_frame (path q : string) (overwrite : bool) (fs fs' : FS)
    (r : result unit) :
  force_rm_or_raise path overwrite fs = (r, fs') ->
  q <> path -> fs' !! q = fs !! q.
Proof.
  intros H Hq. destruct (fs !! path) as [n|] eqn:E.
  - destruct (decide (n = Dir [])) as [->|Hn].
    + rewrite (guard_empty_dir _ _ _ E) in H. congruence.
    + destruct overwrite.
      * rewrite (guard_overwrite _ _ _ E Hn) in H.
        injection H as _ <-. destruct (looks_like_ours path n); [|done].
        unfold rm_rf. now rewrite lookup_delete_ne.
      * rewrite (guard_keep _ _ _ E Hn) in H. congruence.
  - rewrite (guard_absent _ _ _ E) in H. congruence.
Qed.

(** ** Strings and dicts *)

Lemma append_inj_l (s a b : string) : s ++ a = s ++ b -> a = b.
Proof. induction s as [|c s IH]; simpl; [done|]. intros [= H]. auto. Qed.

Lemma dest_inj (outdir op1 op2 : string) :
  dest outdir op1 = dest outdir op2 -> op1 = op2.
Proof. unfold dest. intros H. apply append_inj_l in H. now apply append_inj_l in H. Qed.

Lemma map_prefix {A B} (f : A -> B) (l1 l2 : list A) :
  l1 `prefix_of` l2 -> map f l1 `prefix_of` map f l2.
Proof. intros [k ->]. exists (map f k). apply map_app. Qed.

Section Assoc.
Context {K A : Type} `{EqDecision K}.
Implicit Types (l : list (K * A)).

Lemma assoc_Some_elem k v l : assoc k l = Some v -> (k, v) ∈ l.
Proof.
  induction l as [|[k' v'] l IH]; simpl; [done|].
  destruct (decide (k = k')) as [->|]; [intros [= ->]; left|right; auto].
Qed.

Lemma assoc_None k l : assoc k l = None <-> k ∉ l.*1.
Proof.
  induction l as [|[k' v'] l IH]; simpl.
  - split; [intros _; apply not_elem_of_nil | done].
  - rewrite not_elem_of_cons. destruct (decide (k = k')); [|tauto].
    split; [done | tauto].
Qed.

Lemma elem_assoc k v l : NoDup l.*1 -> (k, v) ∈ l -> assoc k l = Some v.
Proof.
  induction l as [|[k' v'] l IH]; simpl; [intros _ H; inversion H|].
  rewrite NoDup_cons. intros [Hk Hl] [[= -> ->]|H]%elem_of_cons.
  - now rewrite decide_True.
  - rewrite decide_False; [auto|]. intros ->. apply Hk.
    change k' with (k', v).1. now apply list_elem_of_fmap_2.
Qed.
End Assoc.

Lemma flat_map_ext_elem {A B} (f g : A -> list B) (l : list A) :
  (forall x, x ∈ l -> f x = g x) -> flat_map f l = flat_map g l.
Proof.
  induction l as [|x l IH]; simpl; [done|]. intros H.
  rewrite (H x) by left. rewrite IH; [done|]. intros y Hy. apply H. now right.
Qed.

Lemma flat_map_zip_assoc_in {K A B C} `{EqDecision K}
    (f : K -> A -> B -> list C) (full : list (K * B))
    (l1 : list (K * A)) (l2 : list (K * B)) :
  (forall k b, (k, b) ∈ l2 -> assoc k full = Some b) ->
  l1.*1 = l2.*1 ->
  flat_map (fun '((k, a), b) => f k a b) (zip l1 l2.*2)
  = flat_map (fun '(k, a) =>
                match assoc k full with Some b => f k a b | None => [] end) l1.
Proof.
  revert l2. induction l1 as [|[k a] l1 IH]; intros [|[k' b] l2] Hfull;
    simpl; try done.
  intros [= -> Hk]. rewrite (Hfull k' b) by left.
  f_equal. apply IH; [|done]. intros k0 b0 H0. apply Hfull. now right.
Qed.

(** Pairing two lists of pairs by position is pairing them by key when
    their keys agree, position by position, without repetition. *)
Lemma flat_map_zip_assoc {K A B C} `{EqDecision K}
    (f : K -> A -> B -> list C) (l1 : list (K * A)) (l2 : list (K * B)) :
  NoDup l2.*1 -> l1.*1 = l2.*1 ->
  flat_map (fun '((k, a), b) => f k a b) (zip l1 l2.*2)
  = flat_map (fun '(k, a) =>
                match assoc k l2 with Some b => f k a b | None => [] end) l1.
Proof.
  intros Hnd. apply flat_map_zip_assoc_in.
  intros k b. now apply elem_assoc.
Qed.

Section DictFacts.
Context {A : Type}.
Implicit Types (d : dict A).

Lemma dict_in_true k d : dict_in k d = true <-> k ∈ dict_keys d.
Proof.
  unfold dict_in, dict_get, dict_keys. destruct (assoc k d) eqn:E.
  - split; [intros _|done]. apply assoc_Some_elem in E.
    change k with (k, a).1. now apply list_elem_of_fmap_2.
  - split; [done|]. intros H. now apply assoc_None in E.
Qed.

Lemma dict_del_other k k' d : k' <> k -> dict_get k' (dict_del k d) = dict_get k' d.
Proof.
  intros Hk. unfold dict_get. induction d as [|[k0 v] d IH]; simpl; [done|].
  destruct (decide (k = k0)) as [<-|].
  - now rewrite decide_False.
  - simpl. now rewrite IH.
Qed.

Lemma dict_del_keys k d : dict_keys (dict_del k d) ⊆ dict_keys d.
Proof.
  unfold dict_keys. induction d as [|[k0 v] d IH]; simpl; [done|].
  destruct (decide (k = k0)); simpl.
  - intros x H. now right.
  - intros x [->|H]%elem_of_cons; [left | right; auto].
Qed.

Lemma dict_del_gone k d : dict_wf d -> k ∉ dict_keys (dict_del k d).
Proof.
  unfold dict_wf, dict_keys. induction d as [|[k0 v] d IH]; simpl.
  - intros _. apply not_elem_of_nil.
  - rewrite NoDup_cons. intros [Hk Hd]. destruct (decide (k = k0)) as [->|].
    + done.
    + simpl. rewrite not_elem_of_cons. auto.
Qed.

Lemma dict_del_wf k d : dict_wf d -> dict_wf (dict_del k d).
Proof.
  unfold dict_wf, dict_keys. induction d as [|[k0 v] d IH]; simpl; [done|].
  rewrite NoDup_cons. intros [Hk Hd]. destruct (decide (k = k0)); [done|].
  simpl. apply NoDup_cons. split; [|auto].
  intros H. apply Hk. now apply (dict_del_keys k d).
Qed.

Lemma dict_del_length k d :
  dict_in k d = true -> S (length (dict_del k d)) = length d.
Proof.
  unfold dict_in, dict_get. induction d as [|[k0 v] d IH]; simpl; [done|].
  destruct (decide (k = k0)); [done|]. simpl. intros H. now rewrite IH.
Qed.
End DictFacts.

(** ** The event writer *)

Section WriterFacts.
Local Open Scope list_scope.
Context {V : Type} (vadd vsub : V -> V -> V).
Implicit Types (st : State (V:=V)) (w : SummaryWriter (V:=V)).
Implicit Types (d : Dataset (V:=V)) (tt : TagTable (V:=V)).

Lemma add_scalar_series tag (series : Series) w :
  fold_left (fun w '(step, value) => add_scalar w tag value step) series w
  = mkWriter (logdir w)
      (pending w ++ map (fun '(step, value) => Scalar tag value step) series).
Proof.
  revert w. induction series as [|[step v] series IH]; intros w; simpl.
  - rewrite app_nil_r. now destruct w.
  - rewrite IH. simpl. now rewrite <- app_assoc.
Qed.

Lemma write_scalars_spec tt w :
  write_scalars tt w = mkWriter (logdir w) (pending w ++ scalar_records tt).
Proof.
  unfold write_scalars, scalar_records. revert w.
  induction tt as [|[tag series] tt IH]; intros w; simpl.
  - rewrite app_nil_r. now destruct w.
  - rewrite IH, add_scalar_series. simpl. now rewrite <- app_assoc.
Qed.

Lemma add_scalars_series tag (l : list (Z * V * V)) w :
  fold_left
    (fun w '((step, mean), std) =>
       add_scalars w tag
         [("mean+std", vadd mean std); ("mean-std", vsub mean std)] step) l w
  = mkWriter (logdir w)
      (pending w ++
       flat_map (fun '((step, mean), std) => [band vadd vsub tag step mean std]) l).
Proof.
  revert w. induction l as [|[[step m] sd] l IH]; intros w; simpl.
  - rewrite app_nil_r. now destruct w.
  - rewrite IH. simpl. now rewrite <- app_assoc.
Qed.

Lemma write_band_spec (mean_dict std_dict : TagTable) w :
  write_band vadd vsub mean_dict std_dict w
  = mkWriter (logdir w) (pending w ++ band_by_position vadd vsub mean_dict std_dict).
Proof.
  unfold write_band, band_by_position.
  generalize (zip mean_dict (dict_values std_dict)). intros l. revert w.
  induction l as [|[[tag means] stds] l IH]; intros w; simpl.
  - rewrite app_nil_r. now destruct w.
  - rewrite IH, add_scalars_series. simpl. now rewrite <- app_assoc.
Qed.

Lemma dest_ready_ext overwrite path (fs fs' : FS) :
  fs' !! path = fs !! path ->
  dest_ready overwrite path fs' = dest_ready overwrite path fs.
Proof. unfold dest_ready. now intros ->. Qed.

(** Guard, open, fill, close: one destination, whatever the outcome. *)
Lemma write_dest_any path overwrite (f : SummaryWriter -> SummaryWriter)
    st r st' :
  bind (lift_fs (force_rm_or_raise path overwrite))
    (fun _ => bind (new_writer path) (fun w => close (f w))) st = (r, st') ->
  st_data st' = st_data st /\
  (forall q, q <> path -> st_fs st' !! q = st_fs st !! q) /\
  st_sinks st' = st_sinks st ++
    match r with
    | Ok _ => [(logdir (f (mkWriter path [])), pending (f (mkWriter path [])))]
    | Raise _ => []
    end.
Proof.
  unfold bind at 1. unfold lift_fs.
  destruct (force_rm_or_raise path overwrite (st_fs st)) as [r0 fs1] eqn:G.
  pose proof (fun q => guard_frame _ q _ _ _ _ G) as Hfr.
  destruct r0 as [[]|e].
  - unfold bind, new_writer, close, modify. simpl.
    destruct (fs1 !! path) as [[|l]|] eqn:E; intros [= <- <-]; simpl;
      (split; [done|]); (split; [|now rewrite ?app_nil_r]);
      intros q Hq; rewrite ?lookup_insert_ne by done; auto.
  - intros [= <- <-]. simpl. rewrite app_nil_r. auto.
Qed.

(** The same on a destination that is ready: it succeeds. *)
Lemma write_dest_ready path overwrite (f : SummaryWriter -> SummaryWriter)
    st :
  dest_ready overwrite path (st_fs st) = true ->
  exists st',
    bind (lift_fs (force_rm_or_raise path overwrite))
      (fun _ => bind (new_writer path) (fun w => close (f w))) st
    = (Ok tt, st').
Proof.
  unfold dest_ready. intros Hr.
  unfold bind at 1. unfold lift_fs.
  destruct (st_fs st !! path) as [n|] eqn:E.
  - assert (n <> Dir []) as Hn by (intros ->; done).
    assert (overwrite = true) as ->.
    { destruct n as [|[|c l]]; [|done|done].
      now apply andb_true_iff in Hr as [-> _]. }
    rewrite (guard_overwrite _ _ _ E Hn).
    unfold bind, new_writer, close, modify. simpl.
    destruct (looks_like_ours path n) eqn:L.
    + unfold rm_rf. rewrite lookup_delete_eq. eauto.
    + rewrite E. destruct n as [|l]; [|eauto].
      unfold looks_like_ours in L. apply andb_true_iff in Hr as [_ Hr].
      rewrite Hr in L. done.
  - rewrite (guard_absent _ _ _ E).
    unfold bind, new_writer, close, modify. simpl. rewrite E. eauto.
Qed.

Lemma write_op_any outdir overwrite op tt st r st' :
  write_op outdir overwrite (op, tt) st = (r, st') ->
  st_data st' = st_data st /\
  (forall q, q <> dest outdir op -> st_fs st' !! q = st_fs st !! q) /\
  st_sinks st' = st_sinks st ++
    match r with Ok _ => [plain_sink outdir (op, tt)] | Raise _ => [] end.
Proof.
  intros H. apply write_dest_any in H.
  rewrite write_scalars_spec in H. exact H.
Qed.

(** The loop over the operations: the logs written are those of the
    operations reached, in order; all of them when the loop succeeds. *)
Lemma for_each_write_op_any outdir overwrite d st r st' :
  for_each d (write_op outdir overwrite) st = (r, st') ->
  st_data st' = st_data st /\
  exists done_,
    done_ `prefix_of` d /\
    st_sinks st' = st_sinks st ++ map (plain_sink outdir) done_ /\
    (forall u, r = Ok u -> done_ = d).
Proof.
  revert st. induction d as [|[op tt] d IH]; intros st; cbn [for_each].
  - intros [= <- <-]. split; [done|]. exists []. rewrite app_nil_r. auto.
  - unfold bind at 1.
    destruct (write_op outdir overwrite (op, tt) st) as [r1 st1] eqn:E1.
    apply write_op_any in E1 as (Hd & _ & Hs). destruct r1 as [[]|e].
    + intros H. apply IH in H as (Hd' & dn & Hp & Hs' & Hok).
      split; [congruence|]. exists ((op, tt) :: dn).
      split; [now apply prefix_cons|]. split.
      * rewrite Hs', Hs. now rewrite <- app_assoc.
      * intros u Hu. f_equal. eauto.
    + intros [= <- <-]. split; [done|]. exists [].
      split; [apply prefix_nil|]. split; [exact Hs | done].
Qed.

Lemma for_each_write_op_ready outdir overwrite d st :
  dict_wf d ->
  Forall (fun op => dest_ready overwrite (dest outdir op) (st_fs st) = true)
         (dict_keys d) ->
  exists st', for_each d (write_op outdir overwrite) st = (Ok tt, st').
Proof.
  unfold dict_wf, dict_keys. revert st.
  induction d as [|[op tt] d IH]; intros st; cbn [for_each fmap list_fmap fst].
  - intros _ _. now exists st.
  - rewrite NoDup_cons, Forall_cons. intros [Hop Hd] [Hr Hrs].
    destruct (write_dest_ready _ _ (write_scalars tt) st Hr) as [st1 E1].
    unfold bind at 1. unfold write_op at 1. rewrite E1.
    apply write_dest_any in E1 as (_ & Hfr & _).
    apply IH; [done|]. rewrite Forall_forall in Hrs |- *.
    intros op' Hop'. rewrite (dest_ready_ext _ _ (st_fs st)); [auto|].
    apply Hfr. intros ->%dest_inj. done.
Qed.
Lemma write_std_any outdir overwrite st r st' :
  has_pair (st_data st) = true ->
  write_std vadd vsub outdir overwrite st = (r, st') ->
  st_data st' = dict_del "std" (st_data st) /\
  (forall q, q <> dest outdir "std" -> st_fs st' !! q = st_fs st !! q) /\
  st_sinks st' = st_sinks st ++
    match r with
    | Ok _ => std_sink vadd vsub outdir (st_data st)
    | Raise _ => []
    end.
Proof.
  unfold has_pair, dict_in, std_sink. intros Hp.
  destruct (dict_get "mean" (st_data st)) as [mean_dict|] eqn:Em; [|done].
  destruct (dict_get "std" (st_data st)) as [std_dict|] eqn:Es; [|done].
  unfold write_std. unfold bind at 1. unfold data_pop. rewrite Es.
  unfold bind at 1. unfold data_getitem, set_data. cbn [st_data].
  rewrite dict_del_other by done. rewrite Em.
  intros H. apply write_dest_any in H. cbn [st_data st_fs st_sinks] in H.
  now rewrite write_band_spec in H.
Qed.

Lemma write_std_ready outdir overwrite st :
  has_pair (st_data st) = true ->
  dest_ready overwrite (dest outdir "std") (st_fs st) = true ->
  exists st', write_std vadd vsub outdir overwrite st = (Ok tt, st').
Proof.
  unfold has_pair, dict_in. intros Hp Hr.
  destruct (dict_get "mean" (st_data st)) as [mean_dict|] eqn:Em; [|done].
  destruct (dict_get "std" (st_data st)) as [std_dict|] eqn:Es; [|done].
  unfold write_std. unfold bind at 1. unfold data_pop. rewrite Es.
  unfold bind at 1. unfold data_getitem, set_data. cbn [st_data].
  rewrite dict_del_other by done. rewrite Em.
  now apply write_dest_ready.
Qed.

(** Aligned tables: pairing by position is pairing by name. *)
Lemma band_position_tag (mean_dict std_dict : TagTable) :
  aligned mean_dict std_dict ->
  band_by_position vadd vsub mean_dict std_dict
  = band_by_tag vadd vsub mean_dict std_dict.
Proof.
  intros (Hwf & Hk & Hs). unfold band_by_position, band_by_tag, dict_values.
  etrans.
  { apply (flat_map_zip_assoc
             (fun tag means stds =>
                flat_map (fun '((step, mean), std) => [band vadd vsub tag step mean std])
                         (zip means (to_numpy stds)))); assumption. }
  apply flat_map_ext_elem. intros [tag means] Hin. unfold dict_get.
  destruct (assoc tag std_dict) as [stds|] eqn:E; [|done].
  destruct (Hs tag means stds Hin E) as [Hst Hnd]. unfold to_numpy.
  apply (flat_map_zip_assoc (fun step mean std => [band vadd vsub tag step mean std]));
    assumption.
Qed.

(** The whole call, whatever the outcome: the caller's mapping afterwards
    and the logs closed. *)
Lemma write_tb_events_any outdir overwrite st r st' :
  write_tb_events vadd vsub outdir overwrite st = (r, st') ->
  st_data st' = remaining (st_data st) /\
  exists done_,
    done_ `prefix_of` expected_sinks vadd vsub outdir (st_data st) /\
    st_sinks st' = st_sinks st ++ done_ /\
    (forall u, r = Ok u -> done_ = expected_sinks vadd vsub outdir (st_data st)).
Proof.
  unfold write_tb_events, expected_sinks, remaining.
  unfold bind at 1. unfold gets at 1. fold (has_pair (st_data st)).
  destruct (has_pair (st_data st)) eqn:Hp.
  - unfold bind at 1.
    destruct (write_std vadd vsub outdir overwrite st) as [r1 st1] eqn:E1.
    apply write_std_any in E1 as (Hd & _ & Hs); [|done].
    destruct r1 as [[]|e].
    + unfold bind at 1. unfold gets at 1. rewrite Hd.
      intros H. apply for_each_write_op_any in H as (Hd' & dn & Hpre & Hs' & Hok).
      split; [congruence|].
      exists (std_sink vadd vsub outdir (st_data st) ++ map (plain_sink outdir) dn).
      split; [apply prefix_app, map_prefix, Hpre|].
      split; [rewrite Hs', Hs; now rewrite <- app_assoc|].
      intros u Hu. f_equal. f_equal. eauto.
    + intros [= <- <-]. split; [done|]. exists [].
      split; [apply prefix_nil|]. split; [exact Hs | done].
  - unfold bind at 1. unfold ret at 1. unfold bind at 1. unfold gets at 1.
    intros H. apply for_each_write_op_any in H as (Hd' & dn & Hpre & Hs' & Hok).
    split; [done|]. exists (map (plain_sink outdir) dn).
    assert (std_sink vadd vsub outdir (st_data st) = []) as ->.
    { unfold has_pair, dict_in in Hp. unfold std_sink.
      destruct (dict_get "mean" (st_data st)); [|done].
      destruct (dict_get "std" (st_data st)); done. }
    split; [apply map_prefix, Hpre|]. split; [done|].
    intros u Hu. simpl. f_equal. eauto.
Qed.

(** Every destination ready: the call succeeds. *)
Lemma write_tb_events_ready outdir overwrite st :
  dict_wf (st_data st) ->
  Forall (fun op => dest_ready overwrite (dest outdir op) (st_fs st) = true)
         (dict_keys (st_data st)) ->
  exists st', write_tb_events vadd vsub outdir overwrite st = (Ok tt, st').
Proof.
  intros Hwf Hr. unfold write_tb_events.
  unfold bind at 1. unfold gets at 1. fold (has_pair (st_data st)).
  destruct (has_pair (st_data st)) eqn:Hp.
  - assert ("std" ∈ dict_keys (st_data st)) as Hstd.
    { apply dict_in_true. unfold has_pair in Hp.
      now apply andb_true_iff in Hp as [_ ?]. }
    destruct (write_std_ready outdir overwrite st Hp) as [st1 E1].
    { rewrite Forall_forall in Hr. auto. }
    unfold bind at 1. rewrite E1.
    apply write_std_any in E1 as (Hd & Hfr & _); [|done].
    unfold bind at 1. unfold gets at 1.
    apply for_each_write_op_ready; rewrite Hd.
    + now apply dict_del_wf.
    + rewrite Forall_forall in Hr |- *. intros op Hop.
      rewrite (dest_ready_ext _ _ (st_fs st)).
      * apply Hr. now apply (dict_del_keys "std").
      * apply Hfr. intros ->%dest_inj. now apply dict_del_gone in Hop.
  - unfold bind at 1. unfold ret at 1. unfold bind at 1. unfold gets at 1.
    now apply for_each_write_op_ready.
Qed.
End WriterFacts.

(** ** The table *)

Lemma elem_of_index_union (l k : list Z) (x : Z) :
  x ∈ index_union l k <-> x ∈ l \/ x ∈ k.
Proof.
  unfold index_union. rewrite elem_of_app, list_elem_of_difference.
  destruct (decide (x ∈ l)); tauto.
Qed.

Lemma NoDup_index_union (l k : list Z) :
  NoDup l -> NoDup k -> NoDup (index_union l k).
Proof.
  intros Hl Hk. unfold index_union. apply NoDup_app.
  split; [done|]. split; [|now apply NoDup_list_difference].
  intros x Hx. rewrite list_elem_of_difference. tauto.
Qed.

Lemma elem_of_union_all (ls : list (list Z)) (x : Z) :
  x ∈ union_all ls <-> exists l, l ∈ ls /\ x ∈ l.
Proof.
  unfold union_all. induction ls as [|l ls IH]; simpl.
  - split; [intros H; inversion H | intros (l & H & _); inversion H].
  - rewrite elem_of_index_union, IH. split.
    + intros [H|(l' & H1 & H2)]; [exists l | exists l'];
        (split; [|done]); [left | now right].
    + intros (l' & [->|H1]%elem_of_cons & H2); eauto.
Qed.

Lemma NoDup_union_all (ls : list (list Z)) :
  Forall NoDup ls -> NoDup (union_all ls).
Proof.
  unfold union_all. induction 1 as [|l ls Hl _ IH]; simpl.
  - apply NoDup_nil_2.
  - now apply NoDup_index_union.
Qed.

Section AssocMore.
Context {K A : Type} `{EqDecision K}.

(** A column computed from its index is read back by key. *)
Lemma assoc_zip_map_in (f : K -> A) (idx : list K) (k : K) :
  k ∈ idx -> assoc k (zip idx (map f idx)) = Some (f k).
Proof.
  induction idx as [|k' idx IH]; [intros H; inversion H|].
  intros H. cbn. destruct (decide (k = k')) as [->|Hne]; [done|].
  apply elem_of_cons in H as [?|H]; [done | auto].
Qed.

Lemma assoc_zip_map_out (f : K -> A) (idx : list K) (k : K) :
  k ∉ idx -> assoc k (zip idx (map f idx)) = None.
Proof.
  induction idx as [|k' idx IH]; [done|].
  rewrite not_elem_of_cons. intros [Hne H]. cbn.
  destruct (decide (k = k')); [done | auto].
Qed.

Lemma assoc_app (k : K) (l1 l2 : list (K * A)) :
  assoc k (l1 ++ l2)
  = match assoc k l1 with Some v => Some v | None => assoc k l2 end.
Proof.
  induction l1 as [|[k' v] l1 IH]; simpl; [done|].
  now destruct (decide (k = k')).
Qed.
End AssocMore.

Lemma flat_map_map {A B C} (g : A -> B) (f : B -> list C) (l : list A) :
  flat_map f (map g l) = flat_map (fun x => f (g x)) l.
Proof. induction l as [|x l IH]; simpl; [done|]. now rewrite IH. Qed.

Lemma map_flat_map {A B C} (f : A -> list B) (g : B -> C) (l : list A) :
  map g (flat_map f l) = flat_map (fun x => map g (f x)) l.
Proof. induction l as [|x l IH]; simpl; [done|]. now rewrite map_app, IH. Qed.

Lemma zip_flat_map {A B C} (f : A -> list B) (g : A -> list C) (l : list A) :
  (forall x, length (f x) = length (g x)) ->
  zip (flat_map f l) (flat_map g l) = flat_map (fun x => zip (f x) (g x)) l.
Proof.
  intros H. induction l as [|x l IH]; cbn [flat_map]; [done|].
  rewrite zip_with_app by apply H. now rewrite IH.
Qed.

Lemma zip_map_fst_snd {A B C D} (f : A -> C) (g : B -> D) (l : list (A * B)) :
  zip (map f l.*1) (map g l.*2) = map (fun '(a, b) => (f a, g b)) l.
Proof. induction l as [|[a b] l IH]; [done|]. cbn. f_equal. exact IH. Qed.

Section TableFacts.
Context {V : Type}.
Implicit Types (d : Dataset (V:=V)) (s : Series (V:=V)).
Local Open Scope list_scope.

Lemma reindex_series_column (idx new : list Z) s :
  (forall step, step ∈ s.*1 -> step ∈ idx) ->
  reindex idx (series_column idx s) new = series_column new s.
Proof.
  intros Hsub. unfold reindex, series_column. apply map_ext. intros step.
  destruct (decide (step ∈ idx)) as [Hin|Hout].
  - now rewrite assoc_zip_map_in.
  - rewrite assoc_zip_map_out by done. symmetry. apply assoc_None. auto.
Qed.

(** The values of the table, operation by operation, tag by tag. *)
Lemma concat_frames d :
  concat_columns (map (fun '(op, dic) => (op, pd_DataFrame dic)) d)
  = mkDF None (table_index d) (op_tag_columns d)
      (flat_map
         (fun item : string * TagTable =>
            map (series_column (table_index d)) (dict_values item.2))
         d).
Proof.
  unfold concat_columns. f_equal.
  - unfold table_index, dict_values. rewrite !map_map. f_equal.
    apply map_ext. now intros [op dic].
  - unfold op_tag_columns. rewrite flat_map_map.
    apply flat_map_ext. now intros [op dic].
  - rewrite flat_map_map. apply flat_map_ext_elem. intros [op dic] Hin.
    cbn [snd pd_DataFrame df_values df_index]. rewrite map_map.
    apply map_ext_in. intros s Hs%list_elem_of_In.
    replace (union_all (map df_index (dict_values (map (fun '(op0, dic0) => (op0, pd_DataFrame dic0)) d))))
      with (table_index d).
    + apply reindex_series_column. intros step Hstep.
      apply elem_of_union_all. exists (s.*1). split; [|done].
      now apply (list_elem_of_fmap_2 (fun s : Series => s.*1)).
    + unfold table_index, dict_values. rewrite !map_map. f_equal.
      apply map_ext. now intros [op' dic'].
Qed.

Lemma csv_table_nonempty d :
  d <> [] ->
  csv_table d
  = Ok (mkDF (Some "step") (table_index d) (swaplevel (op_tag_columns d))
          (flat_map
             (fun item : string * TagTable =>
                map (series_column (table_index d)) (dict_values item.2))
             d)).
Proof.
  intros Hd. unfold csv_table.
  pose proof (concat_frames d) as Hc. destruct d as [|x d]; [done|].
  cbn [map pd_concat] in *. now rewrite Hc.
Qed.

(** Column labels against columns: each (tag, operation) label with the
    column of its series. *)
Lemma labelled_columns d (index : list Z) :
  zip (swaplevel (op_tag_columns d))
      (flat_map
         (fun item : string * TagTable =>
            map (series_column index) (dict_values item.2)) d)
  = flat_map
      (fun item : string * TagTable =>
         map (fun '(tag, s) => ((tag, item.1), series_column index s)) item.2)
      d.
Proof.
  unfold swaplevel, op_tag_columns. rewrite map_flat_map.
  rewrite zip_flat_map.
  - apply flat_map_ext. intros [op dic]. rewrite map_map. cbn [fst snd].
    unfold dict_keys, dict_values.
    apply (zip_map_fst_snd (fun tag => (tag, op)) (series_column index)).
  - intros [op dic]. unfold dict_keys, dict_values. cbn [snd].
    now rewrite !length_map.
Qed.

Lemma assoc_block (op op' tag : string) (index : list Z) (dic : TagTable (V:=V)) :
  assoc (tag, op)
    (map (fun '(tag', s) => ((tag', op'), series_column index s)) dic)
  = if decide (op = op') then series_column index <$> dict_get tag dic
    else None.
Proof.
  unfold dict_get. induction dic as [|[tag' s] dic IH]; cbn.
  - now destruct (decide (op = op')).
  - destruct (decide (op = op')) as [->|Hop].
    + destruct (decide (tag = tag')) as [->|Ht].
      * now rewrite decide_True.
      * rewrite decide_False by congruence. exact IH.
    + rewrite decide_False by congruence. exact IH.
Qed.

Lemma assoc_labelled d (index : list Z) (op tag : string) :
  dict_wf d ->
  assoc (tag, op)
    (flat_map
       (fun item : string * TagTable =>
          map (fun '(tag, s) => ((tag, item.1), series_column index s)) item.2)
       d)
  = match dict_get op d with
    | Some dic => series_column index <$> dict_get tag dic
    | None => None
    end.
Proof.
  unfold dict_wf, dict_keys.
  induction d as [|[op' dic] d IH]; [done|]. cbn [flat_map fst snd].
  rewrite fmap_cons, NoDup_cons. intros [Hop Hd].
  rewrite assoc_app, assoc_block. unfold dict_get at 2. cbn [assoc fst].
  destruct (decide (op = op')) as [->|Hne].
  - destruct (dict_get tag dic) as [s|]; [done|]. cbn.
    rewrite IH by done. cbn [fst] in Hop. apply assoc_None in Hop.
    unfold dict_get. now rewrite Hop.
  - now apply IH.
Qed.

Lemma series_steps_in_index d op dic tag s step :
  (op, dic) ∈ d -> (tag, s) ∈ dic -> step ∈ s.*1 -> step ∈ table_index d.
Proof.
  intros Hd Hdic Hs. unfold table_index. apply elem_of_union_all.
  exists (union_all (map (fun s : Series => s.*1) (dict_values dic))). split.
  - apply list_elem_of_In, in_map_iff. exists (op, dic).
    split; [done | now apply list_elem_of_In].
  - apply elem_of_union_all. exists (s.*1). split; [|done].
    apply (list_elem_of_fmap_2 (fun s : Series => s.*1)).
    unfold dict_values. change s with (tag, s).2.
    now apply list_elem_of_fmap_2.
Qed.

Lemma table_index_elem d step :
  step ∈ table_index d <->
  exists op dic tag s, (op, dic) ∈ d /\ (tag, s) ∈ dic /\ step ∈ s.*1.
Proof.
  split.
  - unfold table_index. intros (l & Hl & Hin)%elem_of_union_all.
    apply list_elem_of_In, in_map_iff in Hl as ([op dic] & <- & Hd).
    apply elem_of_union_all in Hin as (l' & Hl' & Hin). cbn [snd] in Hl'.
    apply list_elem_of_In, in_map_iff in Hl' as (s & <- & Hs).
    unfold dict_values in Hs. apply list_elem_of_In in Hs.
    apply list_elem_of_fmap in Hs as ([tag s'] & -> & Hs).
    exists op, dic, tag, s'. split; [now apply list_elem_of_In | done].
  - intros (op & dic & tag & s & H1 & H2 & H3).
    eapply series_steps_in_index; eauto.
Qed.

Lemma table_index_NoDup d :
  (forall op dic tag s, (op, dic) ∈ d -> (tag, s) ∈ dic -> NoDup s.*1) ->
  NoDup (table_index d).
Proof.
  intros H. unfold table_index. apply NoDup_union_all, Forall_forall.
  intros l Hl. apply list_elem_of_In, in_map_iff in Hl as ([op dic] & <- & Hd).
  apply NoDup_union_all, Forall_forall. intros l' Hl'. cbn [snd] in Hl'.
  apply list_elem_of_In, in_map_iff in Hl' as (s & <- & Hs).
  unfold dict_values in Hs. apply list_elem_of_In in Hs.
  apply list_elem_of_fmap in Hs as ([tag s'] & -> & Hs).
  apply (H op dic tag s'); [now apply list_elem_of_In | done].
Qed.

(** The cells of the table are the values of the dataset, and nothing
    else: a step a series does not have is an empty cell. *)
Lemma csv_table_cells d df (op tag : string) (step : Z) :
  dict_wf d -> csv_table d = Ok df ->
  df_at df (tag, op) step = value_at d op tag step.
Proof.
  intros Hwf Hdf. destruct (decide (d = [])) as [->|Hd]; [done|].
  rewrite (csv_table_nonempty d Hd) in Hdf. injection Hdf as <-.
  unfold df_at, value_at. cbn [df_columns df_values df_index].
  rewrite labelled_columns, assoc_labelled by done.
  destruct (dict_get op d) as [dic|] eqn:Eop; [|done].
  destruct (dict_get tag dic) as [s|] eqn:Etag; [|done]. cbn.
  unfold series_column.
  destruct (decide (step ∈ table_index d)) as [Hin|Hout].
  - now rewrite assoc_zip_map_in.
  - rewrite assoc_zip_map_out by done. symmetry. apply assoc_None.
    intros Hs. apply Hout.
    apply (series_steps_in_index d op dic tag s);
      [now apply assoc_Some_elem.. | done].
Qed.

Lemma csv_table_empty : csv_table (V:=V) [] = Raise (ValueError "No objects to concatenate").
Proof. reflexivity. Qed.
End TableFacts.

(** * The claims *)

(** ** The overwrite guard *)

(** C1: with [overwrite] set, on an existing path that is neither a [.csv]
    name nor a directory whose first child is an event file, the guard is
    expected to fail and leave the path alone.  It does leave the path
    alone, but it returns normally: the [ValueError] of lines 30-34 is
    built and never raised.  Evaluated on a regular file and on a
    directory of unrelated content. *)
Theorem guard_unsafe_overwrite_returns_normally :
  let fs : FS := <["notes.txt" := File]> (<["photos" := Dir ["cat.jpg"]]> ∅) in
  force_rm_or_raise "notes.txt" true fs = (Ok tt, fs) /\
  force_rm_or_raise "photos" true fs = (Ok tt, fs).
Proof.
  intros fs. split.
  - now rewrite (guard_overwrite "notes.txt" fs File).
  - now rewrite (guard_overwrite "photos" fs (Dir ["cat.jpg"])).
Qed.

(** C3: on an existing path with [overwrite] unset the guard is expected to
    fail with [FileExistsError].  On an existing empty directory it fails
    with [IndexError] instead, out of [os.listdir(path)[0]]; the path is
    left as it was. *)
Theorem guard_keep_empty_dir_index_error :
  let fs : FS := <["out" := Dir []]> ∅ in
  force_rm_or_raise "out" false fs = (Raise IndexError, fs).
Proof. intros fs. now apply guard_empty_dir. Qed.

(** C9: on an existing empty directory the guard fails with [IndexError],
    whatever [overwrite] is, and nothing is deleted: neither the
    [FileExistsError] branch nor the deletion branch is reached. *)
Theorem guard_empty_dir_index_error (path : string) (overwrite : bool) (fs : FS) :
  fs !! path = Some (Dir []) ->
  force_rm_or_raise path overwrite fs = (Raise IndexError, fs) /\
  force_rm_or_raise path overwrite fs
    <> (Raise (FileExistsError (exists_msg path)), fs) /\
  force_rm_or_raise path overwrite fs <> (Ok tt, rm_rf path fs).
Proof.
  intros H. rewrite (guard_empty_dir _ _ _ H). repeat split; congruence.
Qed.

Lemma guard_empty_dir_index_error_witness :
  force_rm_or_raise "run-mean" true (<["run-mean" := Dir []]> ∅)
  = (Raise IndexError, <["run-mean" := Dir []]> ∅).
Proof.
  apply (guard_empty_dir_index_error "run-mean" true (<["run-mean" := Dir []]> ∅)).
  reflexivity.
Defined.

(** ** The event-log writer *)

Section EventLogClaims.
Context {V : Type} (vadd vsub : V -> V -> V).
Implicit Types (st : State (V:=V)).
Local Open Scope list_scope.

Lemma band_has_no_scalar (mean_dict std_dict : TagTable (V:=V)) tag v step :
  Scalar tag v step ∉ band_by_position vadd vsub mean_dict std_dict.
Proof.
  unfold band_by_position. rewrite list_elem_of_In, in_flat_map.
  intros ([[tag' means] stds] & _ & H).
  apply in_flat_map in H as ([[step' m] sd] & _ & [H|[]]). discriminate H.
Qed.

(** C10: with both "mean" and "std" present, "std" is removed from the
    caller's mapping before the guard looks at the [-std] destination.
    Whatever the outcome, the mapping afterwards is the one without "std",
    which differs from the one passed in; in particular, when the
    destination exists (not as an empty directory) and [overwrite] is
    unset, the call fails with [FileExistsError], nothing is written, and
    the mapping has lost "std" all the same. *)
Theorem write_tb_events_pops_before_guard outdir overwrite st r st' :
  has_pair (st_data st) = true ->
  write_tb_events vadd vsub outdir overwrite st = (r, st') ->
  st_data st' = dict_del "std" (st_data st) /\
  st_data st' <> st_data st /\
  forall n,
    overwrite = false ->
    st_fs st !! dest outdir "std" = Some n -> n <> Dir [] ->
    r = Raise (FileExistsError (exists_msg (dest outdir "std"))) /\
    st_fs st' = st_fs st /\ st_sinks st' = st_sinks st.
Proof.
  intros Hp H. pose proof (write_tb_events_any _ _ _ _ _ _ _ H) as [Hd _].
  unfold remaining in Hd. rewrite Hp in Hd. split; [exact Hd|]. split.
  - rewrite Hd. intros Heq. apply (f_equal length) in Heq.
    unfold has_pair in Hp. apply andb_true_iff in Hp as [_ Hs].
    apply dict_del_length in Hs. lia.
  - intros n -> Hn Hne. revert H. unfold write_tb_events.
    unfold bind at 1. unfold gets at 1. fold (has_pair (st_data st)).
    rewrite Hp. unfold bind at 1. unfold write_std.
    unfold has_pair, dict_in in Hp.
    destruct (dict_get "mean" (st_data st)) as [mean_dict|] eqn:Em; [|done].
    destruct (dict_get "std" (st_data st)) as [std_dict|] eqn:Es; [|done].
    unfold bind at 1. unfold data_pop. rewrite Es.
    unfold bind at 1. unfold data_getitem, set_data. cbn [st_data].
    rewrite dict_del_other by done. rewrite Em.
    unfold bind at 1. unfold lift_fs. cbn [st_fs st_data st_sinks].
    rewrite (guard_keep _ _ _ Hn Hne). now intros [= <- <-].
Qed.

(** C4: with both "mean" and "std" present, whatever the outcome, "std"
    is gone from the caller's mapping, every other operation is still
    bound to the table it had, in the order it had, and no log written by
    the call at the [-std] destination holds a plain scalar point. *)
Theorem write_tb_events_std_is_consumed outdir overwrite st r st' :
  has_pair (st_data st) = true ->
  dict_wf (st_data st) ->
  write_tb_events vadd vsub outdir overwrite st = (r, st') ->
  st_data st' = dict_del "std" (st_data st) /\
  dict_in "std" (st_data st') = false /\
  (forall op, op <> "std" ->
     dict_get op (st_data st') = dict_get op (st_data st)) /\
  exists new,
    st_sinks st' = st_sinks st ++ new /\
    forall path recs tag v step,
      (path, recs) ∈ new -> Scalar tag v step ∈ recs ->
      path <> dest outdir "std".
Proof.
  intros Hp Hwf H.
  apply write_tb_events_any in H as (Hd & new & Hpre & Hs & _).
  unfold expected_sinks, remaining in *. rewrite Hp in *.
  split; [exact Hd|]. split; [|split].
  - rewrite Hd. destruct (dict_in "std" _) eqn:E; [|done].
    apply dict_in_true in E. now apply dict_del_gone in E.
  - intros op Hop. rewrite Hd. now apply dict_del_other.
  - exists new. split; [exact Hs|].
    intros path recs tag v step Hin Hrec.
    pose proof (elem_of_prefix _ _ _ Hin Hpre) as Hex.
    apply elem_of_app in Hex as [Hex|Hex].
    + unfold std_sink in Hex.
      destruct (dict_get "mean" (st_data st)); [|inversion Hex].
      destruct (dict_get "std" (st_data st)); [|inversion Hex].
      apply list_elem_of_singleton in Hex. injection Hex as -> ->.
      now apply band_has_no_scalar in Hrec.
    + apply list_elem_of_In, in_map_iff in Hex as ([op t] & [= <- _] & Hop).
      intros Heq%dest_inj. cbn [fst] in Heq. subst op.
      apply (dict_del_gone "std" (st_data st) Hwf).
      unfold dict_keys. change "std" with ("std", t).1.
      now apply list_elem_of_fmap_2, list_elem_of_In.
Qed.
End EventLogClaims.

Section EventLogContent.
Context {V : Type} (vadd vsub : V -> V -> V).
Implicit Types (st : State (V:=V)).
Local Open Scope list_scope.

(** C5: when every destination is ready, the call succeeds and, after the
    band log if there is one, closes one log per remaining operation (all
    of them without the mean/std pair, all but "std" with it), in the
    order of the mapping, at [outdir-op]; the log holds, tag after tag,
    one plain point per (step, value) of the series, in the order of the
    series and with its value.  A dataset with "mean" alone gives the
    single log [outdir-mean]. *)
Theorem write_tb_events_plain_logs outdir overwrite st :
  dict_wf (st_data st) ->
  Forall (fun op => dest_ready overwrite (dest outdir op) (st_fs st) = true)
         (dict_keys (st_data st)) ->
  exists st',
    write_tb_events vadd vsub outdir overwrite st = (Ok tt, st') /\
    st_sinks st'
    = st_sinks st ++ std_sink vadd vsub outdir (st_data st)
        ++ map (fun '(op, events_dict) =>
                  (dest outdir op,
                   flat_map
                     (fun '(tag, series) =>
                        map (fun '(step, value) => Scalar tag value step) series)
                     events_dict))
               (if has_pair (st_data st) then dict_del "std" (st_data st)
                else st_data st) /\
    (forall mean_dict,
       st_data st = [("mean", mean_dict)] ->
       st_sinks st'
       = st_sinks st ++ [(dest outdir "mean", scalar_records mean_dict)]).
Proof.
  intros Hwf Hr.
  destruct (write_tb_events_ready vadd vsub outdir overwrite st Hwf Hr)
    as [st' H].
  exists st'. split; [exact H|].
  apply write_tb_events_any in H as (_ & new & _ & Hs & Hok).
  rewrite (Hok tt eq_refl) in Hs. unfold expected_sinks, remaining in Hs.
  assert (forall l : Dataset (V:=V),
            map (plain_sink outdir) l
            = map (fun '(op, events_dict) =>
                     (dest outdir op,
                      flat_map
                        (fun '(tag, series) =>
                           map (fun '(step, value) => Scalar tag value step) series)
                        events_dict)) l) as Hmap.
  { intros l. apply map_ext. now intros [op t]. }
  split.
  - rewrite Hs. now rewrite Hmap.
  - intros mean_dict Hd. rewrite Hs, Hd. reflexivity.
Qed.

(** C2, amended: when the mean and std tables list the same tags in the
    same order and, tag by tag, the same steps, the call (every destination
    ready) closes first the log [outdir-std], which holds for every tag
    and step of the mean table one record with the two values
    mean + std and mean - std, std being the value of the same tag and
    step, and then among the plain logs [outdir-mean] with the mean
    values as they are. *)
Theorem write_tb_events_band_by_tag outdir overwrite st mean_dict std_dict :
  dict_wf (st_data st) ->
  dict_get "mean" (st_data st) = Some mean_dict ->
  dict_get "std" (st_data st) = Some std_dict ->
  aligned mean_dict std_dict ->
  Forall (fun op => dest_ready overwrite (dest outdir op) (st_fs st) = true)
         (dict_keys (st_data st)) ->
  exists st',
    write_tb_events vadd vsub outdir overwrite st = (Ok tt, st') /\
    st_sinks st'
    = st_sinks st
        ++ (dest outdir "std", band_by_tag vadd vsub mean_dict std_dict)
        :: map (plain_sink outdir) (dict_del "std" (st_data st)) /\
    (dest outdir "mean", scalar_records mean_dict)
      ∈ map (plain_sink outdir) (dict_del "std" (st_data st)) /\
    (forall tag means step m,
       (tag, means) ∈ mean_dict -> (step, m) ∈ means ->
       exists stds sd,
         dict_get tag std_dict = Some stds /\ assoc step stds = Some sd /\
         band vadd vsub tag step m sd
           ∈ band_by_tag vadd vsub mean_dict std_dict).
Proof.
  intros Hwf Hm Hsd Hal Hr.
  destruct (write_tb_events_ready vadd vsub outdir overwrite st Hwf Hr)
    as [st' H].
  exists st'. split; [exact H|].
  apply write_tb_events_any in H as (_ & new & _ & Hs & Hok).
  rewrite (Hok tt eq_refl) in Hs.
  unfold expected_sinks, remaining, std_sink, has_pair, dict_in in Hs.
  rewrite Hm, Hsd in Hs. cbn [andb] in Hs.
  rewrite (band_position_tag _ _ _ _ Hal) in Hs.
  split; [exact Hs|]. split.
  - apply list_elem_of_In, in_map_iff. exists ("mean", mean_dict).
    split; [done|]. apply list_elem_of_In, assoc_Some_elem.
    fold (dict_get "mean" (dict_del "std" (st_data st))).
    now rewrite dict_del_other.
  - intros tag means step m Htag Hstep.
    destruct Hal as (Hwfs & Hk & Hsteps).
    destruct (dict_get tag std_dict) as [stds|] eqn:Et.
    + destruct (Hsteps tag means stds Htag Et) as [Heq Hnd].
      destruct (assoc step stds) as [sd|] eqn:Es.
      * exists stds, sd. split; [done|]. split; [done|].
        unfold band_by_tag. apply list_elem_of_In, in_flat_map.
        exists (tag, means). split; [now apply list_elem_of_In|].
        rewrite Et. apply in_flat_map. exists (step, m).
        split; [now apply list_elem_of_In|]. rewrite Es. now left.
      * apply assoc_None in Es. exfalso. apply Es. rewrite <- Heq.
        change step with (step, m).1. now apply list_elem_of_fmap_2.
    + apply assoc_None in Et. exfalso. apply Et.
      unfold dict_keys in Hk. rewrite <- Hk.
      change tag with (tag, means).1. now apply list_elem_of_fmap_2.
Qed.
End EventLogContent.

(** ** The table writer *)

Section TableClaims.
Context {V : Type}.
Implicit Types (d : Dataset (V:=V)) (cs : CsvState (V:=V)).
Local Open Scope list_scope.

Lemma write_csv_ok d path overwrite cs cs' :
  write_csv d path overwrite cs = (Ok tt, cs') ->
  exists df, csv_table d = Ok df /\ cs_files cs' = cs_files cs ++ [(path, df)].
Proof.
  unfold write_csv, assert_. destruct (endswith path ".csv").
  - unfold bind at 1. unfold ret at 1. unfold bind at 1. unfold lift_csv.
    destruct (force_rm_or_raise path overwrite (cs_fs cs)) as [[[]|e] fs'];
      [|done].
    unfold bind, lift_result, to_csv. cbn [cs_fs cs_files].
    destruct (csv_table d) as [df|e]; [|done].
    destruct (fs' !! path) as [[|l]|]; [|done|]; intros [= <-]; eauto.
  - unfold bind, raise. done.
Qed.

(** C6: the table [write_csv] hands to the sink has its columns labelled
    (tag, operation), the (operation, tag) labels of the concatenation
    with their levels swapped; its index is named "step" and holds the
    steps of all the series, each once; the cell at (tag, operation) and
    a step is the value the series of that operation and tag has at that
    step, and is empty when the series has no such step.  Series with
    different steps are no error: every dataset with at least one
    operation gives a table. *)
Theorem write_csv_table_shape d :
  (d <> [] -> exists df, csv_table d = Ok df) /\
  forall path overwrite cs cs',
    write_csv d path overwrite cs = (Ok tt, cs') ->
    exists df,
      cs_files cs' = cs_files cs ++ [(path, df)] /\
      df_columns df = map (fun '(op, tag) => (tag, op)) (op_tag_columns d) /\
      df_index_name df = Some "step" /\
      (forall step,
         step ∈ df_index df <->
         exists op dic tag (s : Series (V:=V)),
           (op, dic) ∈ d /\ (tag, s) ∈ dic /\ step ∈ s.*1) /\
      ((forall op dic tag (s : Series (V:=V)),
          (op, dic) ∈ d -> (tag, s) ∈ dic -> NoDup s.*1) ->
       NoDup (df_index df)) /\
      (dict_wf d ->
       forall op tag step,
         df_at df (tag, op) step = value_at d op tag step).
Proof.
  split.
  - intros Hd. rewrite (csv_table_nonempty d Hd). eauto.
  - intros path overwrite cs cs' H.
    apply write_csv_ok in H as (df & Hdf & Hfiles).
    exists df. split; [exact Hfiles|].
    assert (d <> []) as Hd by (intros ->; discriminate Hdf).
    pose proof Hdf as Hdf'. rewrite (csv_table_nonempty d Hd) in Hdf'.
    injection Hdf' as <-. cbn [df_columns df_index_name df_index].
    split; [reflexivity|]. split; [reflexivity|].
    split; [apply table_index_elem|]. split; [apply table_index_NoDup|].
    intros Hwf op tag step. now apply csv_table_cells.
Qed.

(** C8: a destination that does not end in [.csv] is refused with an
    [AssertionError] before the guard is consulted and before anything
    is written: the state is the one the call started in. *)
Theorem write_csv_rejects_extension d path overwrite cs :
  endswith path ".csv" = false ->
  write_csv d path overwrite cs = (Raise (AssertionError (assert_msg path)), cs).
Proof. intros H. unfold write_csv, assert_. now rewrite H. Qed.
End TableClaims.

(** * Concrete runs *)

Module Examples.
Import Sample.
Local Open Scope Z_scope.
Local Open Scope list_scope.

Example loss_run :
  st_sinks (write_tb_events Z.add Z.sub "run" false (fresh loss_data)).2
  = [("run-std",
      [Scalars "loss" [("mean+std", 11); ("mean-std", 9)] 0;
       Scalars "loss" [("mean+std", 7); ("mean-std", 3)] 1]);
     ("run-mean", [Scalar "loss" 10 0; Scalar "loss" 5 1])].
Proof. reflexivity. Qed.

Lemma all_ready (d : Dataset (V:=Z)) :
  Forall (fun op => dest_ready false (dest "run" op) (st_fs (fresh d)) = true)
         (dict_keys d).
Proof. apply Forall_forall. intros op _. reflexivity. Defined.

Lemma loss_aligned : aligned loss_mean loss_std.
Proof.
  split; [apply NoDup_singleton|]. split; [reflexivity|].
  intros tag means stds Hin Hget.
  apply list_elem_of_singleton in Hin. injection Hin as -> ->.
  injection Hget as <-. split; [reflexivity|].
  apply (bool_decide_unpack _). reflexivity.
Defined.

(** C2, as stated, fails: the two tables have the same tags and, tag by
    tag, the same steps, yet the band of tag "a" is built with the std of
    tag "b", the first tag of the std table; the record the claim expects
    for tag "a", from its own std 20, is not in the log. *)
Lemma band_pairs_tags_by_position :
  dict_keys ab_mean ≡ₚ dict_keys ab_std /\
  (forall tag means stds,
     dict_get tag ab_mean = Some means -> dict_get tag ab_std = Some stds ->
     means.*1 = stds.*1) /\
  exists st' recs,
    write_tb_events Z.add Z.sub "run" false (fresh ab_data) = (Ok tt, st') /\
    st_sinks st' = [("run-std", recs); ("run-mean", scalar_records ab_mean)] /\
    recs = [Scalars "a" [("mean+std", 11); ("mean-std", -9)] 0;
            Scalars "b" [("mean+std", 22); ("mean-std", -18)] 0] /\
    (band Z.add Z.sub "a" 0 1 20 ∉ recs) /\
    recs <> band_by_tag Z.add Z.sub ab_mean ab_std.
Proof.
  split; [apply Permutation_swap|]. split.
  - intros tag means stds. unfold dict_get, ab_mean, ab_std. cbn [assoc].
    repeat case_decide; subst; try done; now intros [= <-] [= <-].
  - eexists _, [Scalars "a" [("mean+std", 11); ("mean-std", -9)] 0;
                Scalars "b" [("mean+std", 22); ("mean-std", -18)] 0].
    split; [reflexivity|]. split; [reflexivity|].
    split; [reflexivity|]. split.
    + rewrite !elem_of_cons, elem_of_nil. intros [H|[H|[]]]; discriminate H.
    + discriminate.
Qed.
Lemma write_tb_events_pops_before_guard_witness :
  let out := write_tb_events Z.add Z.sub "run" false (taken loss_data) in
  st_data out.2 = [("mean", loss_mean)] /\
  st_data out.2 <> loss_data /\
  out.1 = Raise (FileExistsError (exists_msg "run-std")) /\
  st_fs out.2 = st_fs (taken loss_data) /\ st_sinks out.2 = [].
Proof.
  intros out.
  destruct (write_tb_events_pops_before_guard Z.add Z.sub "run" false
              (taken loss_data) out.1 out.2) as (Hd & Hne & Hfail);
    [reflexivity | reflexivity |].
  split; [exact Hd|]. split; [exact Hne|].
  apply (Hfail (Dir ["events.out.tfevents"]));
    [reflexivity | reflexivity | discriminate].
Defined.

Lemma write_tb_events_std_is_consumed_witness :
  let out := write_tb_events Z.add Z.sub "run" false (fresh loss_data) in
  st_data out.2 = [("mean", loss_mean)] /\
  dict_in "std" (st_data out.2) = false /\
  dict_get "mean" (st_data out.2) = Some loss_mean.
Proof.
  intros out.
  destruct (write_tb_events_std_is_consumed Z.add Z.sub "run" false
              (fresh loss_data) out.1 out.2) as (Hd & Hin & Hget & _);
    [reflexivity | apply (bool_decide_unpack _); reflexivity | reflexivity |].
  split; [exact Hd|]. split; [exact Hin|].
  rewrite Hget by discriminate. reflexivity.
Defined.

Lemma write_tb_events_plain_logs_witness :
  exists st',
    write_tb_events Z.add Z.sub "run" false (fresh [("mean", loss_mean)])
    = (Ok tt, st') /\
    st_sinks st' = [("run-mean", [Scalar "loss" 10 0; Scalar "loss" 5 1])].
Proof.
  destruct (write_tb_events_plain_logs Z.add Z.sub "run" false
              (fresh [("mean", loss_mean)])) as (st' & Hrun & _ & Hone);
    [apply NoDup_singleton | apply all_ready |].
  exists st'. split; [exact Hrun|]. apply (Hone loss_mean). reflexivity.
Defined.

Lemma write_tb_events_band_by_tag_witness :
  exists st',
    write_tb_events Z.add Z.sub "run" false (fresh loss_data) = (Ok tt, st') /\
    st_sinks st'
    = [("run-std",
        [Scalars "loss" [("mean+std", 11); ("mean-std", 9)] 0;
         Scalars "loss" [("mean+std", 7); ("mean-std", 3)] 1]);
       ("run-mean", [Scalar "loss" 10 0; Scalar "loss" 5 1])].
Proof.
  destruct (write_tb_events_band_by_tag Z.add Z.sub "run" false
              (fresh loss_data) loss_mean loss_std)
    as (st' & Hrun & Hlogs & _);
    [apply (bool_decide_unpack _); reflexivity | reflexivity | reflexivity
    | apply loss_aligned | apply all_ready |].
  exists st'. split; [exact Hrun|]. rewrite Hlogs. reflexivity.
Defined.

Lemma write_csv_table_shape_witness :
  exists df,
    csv_table ragged = Ok df /\
    df_columns df = [("loss", "mean"); ("loss", "max")] /\
    df_at df ("loss", "mean") 2 = Some 5 /\
    df_at df ("loss", "mean") 1 = None /\
    df_at df ("loss", "max") 1 = Some 7.
Proof.
  destruct (write_csv_table_shape ragged) as [Hbuilt Hshape].
  destruct (Hshape "run.csv" false (mkCsv ∅ [])
              (write_csv ragged "run.csv" false (mkCsv ∅ [])).2)
    as (df & Hfile & Hcols & _ & _ & _ & Hcells); [reflexivity|].
  injection Hfile as <-. eexists. split; [reflexivity|].
  split; [exact Hcols|].
  rewrite !Hcells by (apply (bool_decide_unpack _); reflexivity).
  repeat split.
Defined.

Lemma write_csv_rejects_extension_witness :
  write_csv loss_data "run.txt" true (mkCsv ∅ [])
  = (Raise (AssertionError "csv_path='run.txt' should have a .csv extension"),
     mkCsv ∅ []).
Proof.
  apply (write_csv_rejects_extension loss_data "run.txt" true (mkCsv ∅ [])).
  reflexivity.
Defined.
End Examples.

(** * Further properties *)

(** ** Suffixes *)

(** [endswith] is the suffix relation. *)
Lemma endswith_spec (s suf : string) :
  endswith s suf = true <-> exists pre, s = pre ++ suf.
Proof.
  split.
  - induction s as [|c s IH]; cbn [endswith].
    + destruct (String.eqb_spec "" suf) as [<-|]; [|done]. now exists "".
    + destruct (String.eqb_spec (String c s) suf) as [<-|]; [now exists ""|].
      intros [pre ->]%IH. now exists (String c pre).
  - intros [pre ->]. induction pre as [|c pre IH].
    + change ("" ++ suf) with suf.
      destruct suf; cbn [endswith]; now rewrite String.eqb_refl.
    + change (String c pre ++ suf) with (String c (pre ++ suf)).
      cbn [endswith]. now destruct (String.eqb (String c (pre ++ suf)) suf).
Qed.

(** ** The guard as a whole *)

Lemma guard_cases (path : string) (overwrite : bool) (fs : FS) :
  force_rm_or_raise path overwrite fs
  = match fs !! path with
    | None => (Ok tt, fs)
    | Some n =>
        if decide (n = Dir []) then (Raise IndexError, fs)
        else if overwrite
             then (Ok tt, if looks_like_ours path n then rm_rf path fs else fs)
             else (Raise (FileExistsError (exists_msg path)), fs)
    end.
Proof.
  destruct (fs !! path) as [n|] eqn:E; [|now apply guard_absent].
  destruct (decide (n = Dir [])) as [->|Hn]; [now apply guard_empty_dir|].
  destruct overwrite; [now apply guard_overwrite | now apply (guard_keep _ _ n)].
Qed.

(** X1: with [overwrite] unset the guard never changes the file system, and
    it returns normally exactly when the path does not exist. *)
Theorem guard_without_overwrite (path : string) (fs fs' : FS) (r : result unit) :
  force_rm_or_raise path false fs = (r, fs') ->
  fs' = fs /\ (r = Ok tt <-> fs !! path = None).
Proof.
  rewrite guard_cases. destruct (fs !! path) as [n|].
  - destruct (decide (n = Dir [])); intros [= <- <-]; (split; [done|]);
      split; discriminate.
  - intros [= <- <-]. done.
Qed.

Lemma guard_without_overwrite_witness :
  (force_rm_or_raise "run-mean" false ∅).2 = ∅ /\
  ((force_rm_or_raise "run-mean" false ∅).1 = Ok tt <->
   (∅ : FS) !! "run-mean" = None).
Proof.
  apply (guard_without_overwrite "run-mean" ∅).
  reflexivity.
Defined.

(** X2: with [overwrite] set the guard never raises [FileExistsError] nor
    the [ValueError] it builds: it fails on an existing empty directory,
    with [IndexError], and on nothing else. *)
Theorem guard_with_overwrite_outcomes (path : string) (fs fs' : FS)
    (r : result unit) :
  force_rm_or_raise path true fs = (r, fs') ->
  (r = Ok tt \/ r = Raise IndexError) /\
  (r = Raise IndexError <-> fs !! path = Some (Dir [])).
Proof.
  rewrite guard_cases. destruct (fs !! path) as [n|].
  - destruct (decide (n = Dir [])) as [->|Hn]; intros [= <- <-].
    + split; [now right | done].
    + split; [now left|]. split; [discriminate | congruence].
  - intros [= <- <-]. split; [now left|]. split; discriminate.
Qed.

Lemma guard_with_overwrite_outcomes_witness :
  let fs : FS := <["photos" := Dir ["cat.jpg"]]> ∅ in
  ((force_rm_or_raise "photos" true fs).1 = Ok tt \/
   (force_rm_or_raise "photos" true fs).1 = Raise IndexError) /\
  ((force_rm_or_raise "photos" true fs).1 = Raise IndexError <->
   fs !! "photos" = Some (Dir [])).
Proof.
  intros fs.
  apply (guard_with_overwrite_outcomes "photos" fs (force_rm_or_raise "photos" true fs).2).
  reflexivity.
Defined.



(** X4: the guard is idempotent: once it has returned normally, running it
    again on the resulting file system returns normally and changes
    nothing. *)
Theorem guard_idempotent (path : string) (overwrite : bool) (fs fs' : FS) :
  force_rm_or_raise path overwrite fs = (Ok tt, fs') ->
  force_rm_or_raise path overwrite fs' = (Ok tt, fs').
Proof.
  rewrite guard_cases. destruct (fs !! path) as [n|] eqn:E.
  - destruct (decide (n = Dir [])) as [->|Hn]; [discriminate|].
    destruct overwrite; [|discriminate].
    destruct (looks_like_ours path n) eqn:L; intros [= <-].
    + apply guard_absent. unfold rm_rf. apply lookup_delete_eq.
    + rewrite (guard_overwrite _ _ _ E Hn). now rewrite L.
  - intros [= <-]. now apply guard_absent.
Qed.

Lemma guard_idempotent_witness :
  let fs : FS := <["run.csv" := File]> ∅ in
  force_rm_or_raise "run.csv" true (delete "run.csv" fs)
  = (Ok tt, delete "run.csv" fs).
Proof.
  intros fs. apply (guard_idempotent "run.csv" true fs). reflexivity.
Defined.



(** ** The event writer and the file system *)

Section WriterFs.
Local Open Scope list_scope.
Context {V : Type} (vadd vsub : V -> V -> V).
Implicit Types (st : State (V:=V)) (d : Dataset (V:=V)).



(** A log that was closed left a directory with an event file. *)
Lemma write_dest_ok_dir path overwrite
    (f : SummaryWriter (V:=V) -> SummaryWriter (V:=V)) st st' :
  bind (lift_fs (force_rm_or_raise path overwrite))
    (fun _ => bind (new_writer path) (fun w => close (f w))) st = (Ok tt, st') ->
  exists l, st_fs st' !! path = Some (Dir (l ++ [event_file])).
Proof.
  unfold bind at 1. unfold lift_fs.
  destruct (force_rm_or_raise path overwrite (st_fs st)) as [[[]|e] fs1];
    [|discriminate].
  unfold bind, new_writer, close, modify. cbn [st_fs st_data st_sinks].
  destruct (fs1 !! path) as [[|l]|] eqn:E; [discriminate| |];
    intros [= <-]; cbn [st_fs]; rewrite lookup_insert_eq.
  - now exists l.
  - now exists [].
Qed.

Lemma write_dest_errors path overwrite
    (f : SummaryWriter (V:=V) -> SummaryWriter (V:=V)) st e st' :
  bind (lift_fs (force_rm_or_raise path overwrite))
    (fun _ => bind (new_writer path) (fun w => close (f w))) st = (Raise e, st') ->
  e = IndexError \/
  (e = FileExistsError (exists_msg path) /\ overwrite = false) \/
  e = OSError path.
Proof.
  unfold bind at 1. unfold lift_fs. rewrite guard_cases.
  destruct (st_fs st !! path) as [n|] eqn:E.
  - destruct (decide (n = Dir [])); [intros [= <- _]; now left|].
    destruct overwrite.
    + unfold bind, new_writer, close, modify. cbn [st_fs st_data st_sinks].
      match goal with |- context [?m !! path] => destruct (m !! path) as [[|l]|] end;
        try discriminate.
      intros [= <- _]. now right; right.
    + intros [= <- _]. right; left. done.
  - unfold bind, new_writer, close, modify. cbn [st_fs st_data st_sinks].
    rewrite E. discriminate.
Qed.

Lemma for_each_write_op_frame outdir overwrite d st r st' :
  for_each d (write_op outdir overwrite) st = (r, st') ->
  forall q, (forall op, op ∈ dict_keys d -> q <> dest outdir op) ->
  st_fs st' !! q = st_fs st !! q.
Proof.
  unfold dict_keys. revert st.
  induction d as [|[op t] d IH]; intros st; cbn [for_each].
  - now intros [= <- <-].
  - unfold bind at 1.
    destruct (write_op outdir overwrite (op, t) st) as [r1 st1] eqn:E1.
    apply write_op_any in E1 as (_ & Hfr & _). intros H q Hq.
    assert (st_fs st1 !! q = st_fs st !! q) as Hq1.
    { apply Hfr, Hq. rewrite fmap_cons. left. }
    destruct r1 as [[]|e].
    + rewrite (IH _ H); [done|]. intros op' Hop'. apply Hq.
      rewrite fmap_cons. now right.
    + injection H as <- <-. done.
Qed.

Lemma for_each_write_op_dirs outdir overwrite d st st' :
  dict_wf d ->
  for_each d (write_op outdir overwrite) st = (Ok tt, st') ->
  forall op, op ∈ dict_keys d ->
  exists l, st_fs st' !! dest outdir op = Some (Dir (l ++ [event_file])).
Proof.
  unfold dict_wf, dict_keys. revert st.
  induction d as [|[op t] d IH]; intros st; cbn [for_each].
  - intros _ _ op Hop. inversion Hop.
  - rewrite fmap_cons, NoDup_cons. cbn [fst]. intros [Hop Hd].
    unfold bind at 1.
    destruct (write_op outdir overwrite (op, t) st) as [r1 st1] eqn:E1.
    destruct r1 as [[]|e]; [|discriminate].
    intros H op' [->|Hop']%elem_of_cons.
    + apply write_dest_ok_dir in E1 as [l Hl]. exists l.
      rewrite (for_each_write_op_frame _ _ _ _ _ _ H); [done|].
      intros op' Hop' ->%dest_inj. done.
    + now apply (IH st1).
Qed.


Lemma dict_del_keys_inv {A} k k' (d0 : dict A) :
  k' ∈ dict_keys d0 -> k' = k \/ k' ∈ dict_keys (dict_del k d0).
Proof.
  unfold dict_keys. induction d0 as [|[k0 v] d0 IH]; [intros H; inversion H|].
  cbn [dict_del]. rewrite fmap_cons. cbn [fst].
  destruct (decide (k = k0)) as [->|Hne].
  - intros [->|H]%elem_of_cons; [now left | now right].
  - rewrite fmap_cons. cbn [fst]. intros [->|H]%elem_of_cons.
    + right. left.
    + destruct (IH H) as [->|H']; [now left | right; now right].
Qed.

Lemma has_pair_remaining d : dict_wf d -> has_pair (remaining d) = false.
Proof.
  intros Hwf. unfold remaining. destruct (has_pair d) eqn:Hp; [|exact Hp].
  unfold has_pair. destruct (dict_in "std" _) eqn:E; [|apply andb_false_r].
  apply dict_in_true in E. now apply dict_del_gone in E.
Qed.

Lemma remaining_wf d : dict_wf d -> dict_wf (remaining d).
Proof.
  intros Hwf. unfold remaining. destruct (has_pair d); [|done].
  now apply dict_del_wf.
Qed.

(** After a successful call every destination is a directory with an event
    file; paths that are no destination are as before. *)
Lemma write_tb_events_dirs outdir overwrite st st' :
  dict_wf (st_data st) ->
  write_tb_events vadd vsub outdir overwrite st = (Ok tt, st') ->
  (forall op, op ∈ dict_keys (st_data st) ->
     exists l, st_fs st' !! dest outdir op = Some (Dir (l ++ [event_file]))) /\
  (forall q, (forall op, op ∈ dict_keys (st_data st) -> q <> dest outdir op) ->
     st_fs st' !! q = st_fs st !! q).
Proof.
  intros Hwf. unfold write_tb_events.
  unfold bind at 1. unfold gets at 1. fold (has_pair (st_data st)).
  destruct (has_pair (st_data st)) eqn:Hp.
  - unfold bind at 1.
    destruct (write_std vadd vsub outdir overwrite st) as [r1 st1] eqn:E1.
    destruct r1 as [[]|e]; [|discriminate].
    pose proof (write_std_any _ _ _ _ _ _ _ Hp E1) as (Hd & Hfr & _).
    unfold bind at 1. unfold gets at 1. rewrite Hd. intros H.
    assert ("std" ∈ dict_keys (st_data st)) as Hstd.
    { apply dict_in_true. unfold has_pair in Hp.
      now apply andb_true_iff in Hp as [_ ?]. }
    split.
    + intros op Hop. destruct (dict_del_keys_inv "std" op _ Hop) as [->|Hop'].
      * assert (exists l, st_fs st1 !! dest outdir "std"
                          = Some (Dir (l ++ [event_file]))) as [l Hl].
        { clear H. revert E1. unfold write_std, has_pair, dict_in in *.
          destruct (dict_get "mean" (st_data st)) as [m|] eqn:Em; [|done].
          destruct (dict_get "std" (st_data st)) as [sd|] eqn:Es; [|done].
          unfold bind at 1. unfold data_pop. rewrite Es.
          unfold bind at 1. unfold data_getitem, set_data. cbn [st_data].
          rewrite dict_del_other by done. rewrite Em.
          apply write_dest_ok_dir. }
        exists l. rewrite (for_each_write_op_frame _ _ _ _ _ _ H); [done|].
        intros op Hop' Heq%dest_inj. subst op. now apply dict_del_gone in Hop'.
      * apply (for_each_write_op_dirs _ _ _ _ _ (dict_del_wf "std" _ Hwf) H op Hop').
    + intros q Hq. rewrite (for_each_write_op_frame _ _ _ _ _ _ H).
      * apply Hfr. now apply Hq.
      * intros op Hop. apply Hq. now apply (dict_del_keys "std").
  - unfold bind at 1. unfold ret at 1. unfold bind at 1. unfold gets at 1.
    intros H. split.
    + now apply (for_each_write_op_dirs _ _ _ _ _ Hwf H).
    + now apply (for_each_write_op_frame _ _ _ _ _ _ H).
Qed.
End WriterFs.

Section WriterRuns.
Local Open Scope list_scope.
Context {V : Type} (vadd vsub : V -> V -> V).
Implicit Types (st : State (V:=V)) (d : Dataset (V:=V)).

Lemma std_sink_no_pair outdir d :
  has_pair d = false -> std_sink vadd vsub outdir d = [].
Proof.
  unfold has_pair, dict_in, std_sink.
  destruct (dict_get "mean" d); [|done]. now destruct (dict_get "std" d).
Qed.

Lemma remaining_keys d op :
  op ∈ dict_keys (remaining d) -> op ∈ dict_keys d.
Proof.
  unfold remaining. destruct (has_pair d); [|done]. apply dict_del_keys.
Qed.




(** X7: a second call on the same mapping.  After a successful call, the
    same call with [overwrite] set succeeds again; the mapping has lost
    "std" in the first call, so the second call writes no band: it closes
    the plain logs of the operations left, and the [-std] log of the first
    call is not rewritten. *)
Theorem write_tb_events_again_with_overwrite outdir overwrite st st' :
  dict_wf (st_data st) ->
  write_tb_events vadd vsub outdir overwrite st = (Ok tt, st') ->
  exists st'',
    write_tb_events vadd vsub outdir true st' = (Ok tt, st'') /\
    st_data st'' = st_data st' /\
    st_data st' = remaining (st_data st) /\
    st_sinks st'' = st_sinks st' ++ map (plain_sink outdir) (st_data st').
Proof.
  intros Hwf H.
  pose proof (write_tb_events_any _ _ _ _ _ _ _ H) as (Hd & _).
  pose proof (write_tb_events_dirs _ _ _ _ _ _ Hwf H) as (Hdirs & _).
  assert (dict_wf (st_data st')) as Hwf' by (rewrite Hd; now apply remaining_wf).
  destruct (write_tb_events_ready vadd vsub outdir true st' Hwf') as [st'' H2].
  { apply Forall_forall. intros op Hop. rewrite Hd in Hop.
    destruct (Hdirs op (remaining_keys _ _ Hop)) as [l Hl].
    unfold dest_ready. rewrite Hl. now destruct l. }
  exists st''. split; [exact H2|].
  apply write_tb_events_any in H2 as (Hd2 & new & _ & Hs & Hok).
  rewrite (Hok tt eq_refl) in Hs. unfold expected_sinks in Hs.
  assert (has_pair (st_data st') = false) as Hnp
    by (rewrite Hd; now apply has_pair_remaining).
  rewrite (std_sink_no_pair _ _ Hnp) in Hs.
  unfold remaining in Hd2, Hs. rewrite Hnp in Hd2, Hs. done.
Qed.

(** X8: after a successful call that left at least one operation in the
    mapping, the same call with [overwrite] unset fails with
    [FileExistsError] on the destination of the first operation left, and
    changes nothing. *)
Theorem write_tb_events_again_without_overwrite outdir overwrite st st'
    op events_dict rest :
  dict_wf (st_data st) ->
  write_tb_events vadd vsub outdir overwrite st = (Ok tt, st') ->
  st_data st' = (op, events_dict) :: rest ->
  write_tb_events vadd vsub outdir false st'
  = (Raise (FileExistsError (exists_msg (dest outdir op))), st').
Proof.
  intros Hwf H Hdata.
  pose proof (write_tb_events_any _ _ _ _ _ _ _ H) as (Hd & _).
  pose proof (write_tb_events_dirs _ _ _ _ _ _ Hwf H) as (Hdirs & _).
  assert (has_pair (st_data st') = false) as Hnp
    by (rewrite Hd; now apply has_pair_remaining).
  destruct (Hdirs op) as [l Hl].
  { apply remaining_keys. rewrite <- Hd, Hdata. unfold dict_keys.
    rewrite fmap_cons. left. }
  unfold write_tb_events. unfold bind at 1. unfold gets at 1.
  fold (has_pair (st_data st')). rewrite Hnp.
  unfold bind at 1. unfold ret at 1. unfold bind at 1. unfold gets at 1.
  rewrite Hdata. cbn [for_each]. unfold bind at 1. unfold write_op at 1.
  unfold bind at 1. unfold lift_fs.
  rewrite (guard_keep _ _ _ Hl) by (now destruct l).
  now destruct st'.
Qed.
End WriterRuns.

Section WriterOutcomes.
Local Open Scope list_scope.
Context {V : Type} (vadd vsub : V -> V -> V).
Implicit Types (st : State (V:=V)) (d : Dataset (V:=V)).

Lemma for_each_write_op_raise outdir overwrite d st e st' :
  for_each d (write_op outdir overwrite) st = (Raise e, st') ->
  exists done_ op t rest,
    d = done_ ++ (op, t) :: rest /\
    st_sinks st' = st_sinks st ++ map (plain_sink outdir) done_ /\
    (e = IndexError \/
     (e = FileExistsError (exists_msg (dest outdir op)) /\ overwrite = false) \/
     e = OSError (dest outdir op)).
Proof.
  revert st. induction d as [|[op t] d IH]; intros st; cbn [for_each].
  - discriminate.
  - unfold bind at 1.
    destruct (write_op outdir overwrite (op, t) st) as [r1 st1] eqn:E1.
    pose proof (write_op_any _ _ _ _ _ _ _ E1) as (_ & _ & Hs).
    destruct r1 as [[]|e1].
    + intros H. apply IH in H as (dn & op' & t' & rest & -> & Hs' & He).
      exists ((op, t) :: dn), op', t', rest. split; [done|]. split; [|done].
      rewrite Hs', Hs. now rewrite <- app_assoc.
    + intros [= <- <-]. exists [], op, t, d. split; [done|]. split; [done|].
      now apply write_dest_errors in E1.
Qed.

Lemma write_std_raise outdir overwrite st e st' :
  has_pair (st_data st) = true ->
  write_std vadd vsub outdir overwrite st = (Raise e, st') ->
  e = IndexError \/
  (e = FileExistsError (exists_msg (dest outdir "std")) /\ overwrite = false) \/
  e = OSError (dest outdir "std").
Proof.
  unfold has_pair, dict_in. intros Hp.
  destruct (dict_get "mean" (st_data st)) as [mean_dict|] eqn:Em; [|done].
  destruct (dict_get "std" (st_data st)) as [std_dict|] eqn:Es; [|done].
  unfold write_std. unfold bind at 1. unfold data_pop. rewrite Es.
  unfold bind at 1. unfold data_getitem, set_data. cbn [st_data].
  rewrite dict_del_other by done. rewrite Em.
  apply write_dest_errors.
Qed.

(** A failed call: which logs were closed, and what was raised where. *)
Lemma write_tb_events_raise outdir overwrite st e st' :
  write_tb_events vadd vsub outdir overwrite st = (Raise e, st') ->
  exists done_ more op,
    expected_sinks vadd vsub outdir (st_data st) = done_ ++ more /\
    more <> [] /\
    st_sinks st' = st_sinks st ++ done_ /\
    op ∈ dict_keys (st_data st) /\
    (e = IndexError \/
     (e = FileExistsError (exists_msg (dest outdir op)) /\ overwrite = false) \/
     e = OSError (dest outdir op)).
Proof.
  unfold write_tb_events, expected_sinks, remaining.
  unfold bind at 1. unfold gets at 1. fold (has_pair (st_data st)).
  destruct (has_pair (st_data st)) eqn:Hp.
  - assert ("std" ∈ dict_keys (st_data st)) as Hstd.
    { apply dict_in_true. unfold has_pair in Hp.
      now apply andb_true_iff in Hp as [_ ?]. }
    unfold bind at 1.
    destruct (write_std vadd vsub outdir overwrite st) as [r1 st1] eqn:E1.
    pose proof (write_std_any _ _ _ _ _ _ _ Hp E1) as (Hd & _ & Hs).
    destruct r1 as [[]|e1].
    + unfold bind at 1. unfold gets at 1. rewrite Hd. intros H.
      apply for_each_write_op_raise in H
        as (dn & op & t & rest & Hsplit & Hs' & He).
      exists (std_sink vadd vsub outdir (st_data st) ++ map (plain_sink outdir) dn),
        (map (plain_sink outdir) ((op, t) :: rest)), op.
      split; [rewrite Hsplit, map_app; now rewrite <- app_assoc|].
      split; [done|]. split; [rewrite Hs', Hs; now rewrite <- app_assoc|].
      split; [|done]. apply (dict_del_keys "std"). rewrite Hsplit.
      unfold dict_keys. rewrite fmap_app, fmap_cons. apply elem_of_app.
      right. left.
    + intros [= <- <-].
      exists [], (std_sink vadd vsub outdir (st_data st)
                  ++ map (plain_sink outdir) (dict_del "std" (st_data st))), "std".
      split; [done|]. split.
      * unfold std_sink, has_pair, dict_in in *.
        destruct (dict_get "mean" (st_data st)); [|done].
        destruct (dict_get "std" (st_data st)); done.
      * split; [exact Hs|]. split; [done|].
        now apply (write_std_raise _ _ _ _ _ Hp E1).
  - unfold bind at 1. unfold ret at 1. unfold bind at 1. unfold gets at 1.
    intros H. apply for_each_write_op_raise in H
      as (dn & op & t & rest & Hsplit & Hs' & He).
    rewrite (std_sink_no_pair _ _ _ _ Hp).
    exists (map (plain_sink outdir) dn), (map (plain_sink outdir) ((op, t) :: rest)), op.
    split; [rewrite Hsplit; apply map_app|]. split; [done|]. split; [done|].
    split; [|done]. rewrite Hsplit. unfold dict_keys.
    rewrite fmap_app, fmap_cons. apply elem_of_app. right. left.
Qed.

(** X9: the call fails fast.  When it raises, the logs it has closed are
    those of the destinations before the failing one, in order: a proper
    prefix of the logs of a complete call.  Nothing is written for the
    failing destination or for any later one. *)
Theorem write_tb_events_fails_fast outdir overwrite st e st' :
  write_tb_events vadd vsub outdir overwrite st = (Raise e, st') ->
  exists done_ more,
    expected_sinks vadd vsub outdir (st_data st) = done_ ++ more /\
    more <> [] /\
    st_sinks st' = st_sinks st ++ done_.
Proof.
  intros H. apply write_tb_events_raise in H
    as (dn & more & op & H1 & H2 & H3 & _).
  now exists dn, more.
Qed.


(** X11: without the mean/std pair the caller's mapping is never changed,
    whatever the outcome, and a complete call closes one plain log per
    operation of the mapping; in particular "std" without "mean" is written
    as plain scalar points at [outdir-std]. *)
Theorem write_tb_events_without_pair outdir overwrite st r st' :
  has_pair (st_data st) = false ->
  write_tb_events vadd vsub outdir overwrite st = (r, st') ->
  st_data st' = st_data st /\
  (r = Ok tt ->
   st_sinks st' = st_sinks st ++ map (plain_sink outdir) (st_data st) /\
   forall std_dict,
     dict_get "std" (st_data st) = Some std_dict ->
     (dest outdir "std", scalar_records std_dict)
       ∈ map (plain_sink outdir) (st_data st)).
Proof.
  intros Hp H. apply write_tb_events_any in H as (Hd & new & _ & Hs & Hok).
  unfold expected_sinks, remaining in *. rewrite Hp in *.
  rewrite (std_sink_no_pair _ _ _ _ Hp) in Hok. split; [exact Hd|].
  intros ->. rewrite (Hok tt eq_refl) in Hs. split; [exact Hs|].
  intros std_dict Hstd. apply assoc_Some_elem in Hstd.
  apply list_elem_of_In, in_map_iff. exists ("std", std_dict).
  split; [done | now apply list_elem_of_In].
Qed.

Lemma expected_dests outdir d :
  (expected_sinks vadd vsub outdir d).*1
  = map (dest outdir)
      (if has_pair d then "std" :: dict_keys (dict_del "std" d) else dict_keys d).
Proof.
  unfold expected_sinks, remaining. destruct (has_pair d) eqn:Hp.
  - unfold std_sink, has_pair, dict_in in *.
    destruct (dict_get "mean" d); [|done]. destruct (dict_get "std" d); [|done].
    cbn. f_equal. unfold dict_keys. rewrite <- !list_fmap_compose.
    apply list_fmap_ext. now intros ? [? ?].
  - rewrite (std_sink_no_pair _ _ _ _ Hp). cbn [app].
    unfold dict_keys. change (map (dest outdir) d.*1) with (dest outdir <$> d.*1).
    change (map (plain_sink outdir) d) with (plain_sink outdir <$> d).
    rewrite <- !list_fmap_compose. apply list_fmap_ext. now intros ? [? ?].
Qed.

(** X12: a complete call closes exactly one log per operation of the
    mapping it was given, the band log standing for "std"; their
    destinations are pairwise distinct and are the [outdir-op] of the
    operations. *)
Theorem write_tb_events_one_log_per_operation outdir overwrite st st' :
  dict_wf (st_data st) ->
  write_tb_events vadd vsub outdir overwrite st = (Ok tt, st') ->
  exists new,
    st_sinks st' = st_sinks st ++ new /\
    length new = length (st_data st) /\
    NoDup new.*1 /\
    forall p, p ∈ new.*1 <->
              exists op, op ∈ dict_keys (st_data st) /\ p = dest outdir op.
Proof.
  intros Hwf H. apply write_tb_events_any in H as (_ & new & _ & Hs & Hok).
  exists new. split; [exact Hs|]. rewrite (Hok tt eq_refl).
  pose proof (expected_dests outdir (st_data st)) as Hd.
  assert (Inj (=) (=) (dest outdir)) as Hinj
    by (intros a b; apply dest_inj).
  split; [|split].
  - rewrite <- (length_fmap fst), Hd, length_map.
    destruct (has_pair (st_data st)) eqn:Hp; [|apply length_fmap].
    cbn [length]. unfold dict_keys. rewrite length_fmap.
    apply dict_del_length. unfold has_pair in Hp.
    now apply andb_true_iff in Hp as [_ ?].
  - rewrite Hd. apply (NoDup_fmap_2 (dest outdir)).
    destruct (has_pair (st_data st)); [|exact Hwf].
    apply NoDup_cons. split; [now apply dict_del_gone | now apply dict_del_wf].
  - intros p. rewrite Hd.
    change (map (dest outdir) ?l) with (dest outdir <$> l).
    rewrite list_elem_of_fmap.
    destruct (has_pair (st_data st)) eqn:Hp.
    + split.
      * intros (op & -> & Hop). exists op. split; [|done].
        apply elem_of_cons in Hop as [->|Hop].
        -- apply dict_in_true. unfold has_pair in Hp.
           now apply andb_true_iff in Hp as [_ ?].
        -- now apply (dict_del_keys "std").
      * intros (op & Hop & ->). exists op. split; [done|].
        destruct (dict_del_keys_inv "std" op _ Hop) as [->|Hop'];
          [left | now right].
    + split; intros (op & H1 & H2); exists op; done.
Qed.
End WriterOutcomes.

Section BandPairing.
Local Open Scope list_scope.
Context {V : Type} (vadd vsub : V -> V -> V).
Implicit Types (w : SummaryWriter (V:=V)).
Implicit Types (mean_dict std_dict : TagTable (V:=V)).

Lemma zip_app_l_nil {A B} (l e : list A) (k : list B) :
  length l = length k -> zip (l ++ e) k = zip l k.
Proof.
  intros H. rewrite <- (app_nil_r k) at 1. rewrite zip_with_app by done.
  rewrite zip_with_nil_r. apply app_nil_r.
Qed.

Lemma zip_app_r_nil {A B} (l : list A) (k e : list B) :
  length l = length k -> zip l (k ++ e) = zip l k.
Proof.
  intros H. rewrite <- (app_nil_r l) at 1. rewrite zip_with_app by done.
  cbn. apply app_nil_r.
Qed.

(** X13: the band is cut to the shorter side, silently.  Tags of the mean
    table beyond the number of tags of the std table get no band, tags of
    the std table beyond those of the mean table are ignored, and within a
    tag the steps of the mean series beyond the length of the std series
    get no band either; no error is raised for the mismatch. *)
Theorem write_band_truncates mean_dict std_dict w :
  length mean_dict = length std_dict ->
  (forall extra,
     write_band vadd vsub (mean_dict ++ extra) std_dict w
     = write_band vadd vsub mean_dict std_dict w) /\
  (forall extra,
     write_band vadd vsub mean_dict (std_dict ++ extra) w
     = write_band vadd vsub mean_dict std_dict w) /\
  (forall tag tag' (means more stds : Series (V:=V)),
     length means = length stds ->
     write_band vadd vsub [(tag, means ++ more)] [(tag', stds)] w
     = write_band vadd vsub [(tag, means)] [(tag', stds)] w).
Proof.
  intros Hlen. split; [|split].
  - intros extra. unfold write_band, dict_values.
    rewrite zip_app_l_nil; [done|]. now rewrite length_fmap.
  - intros extra. unfold write_band, dict_values.
    rewrite fmap_app, zip_app_r_nil; [done|]. now rewrite length_fmap.
  - intros tag tag' means more stds Hl. unfold write_band, dict_values.
    cbn [fmap list_fmap snd zip_with fold_left].
    rewrite zip_app_l_nil; [done|]. unfold to_numpy. now rewrite length_fmap.
Qed.

(** X14: of the std table only the values are read, by position: the names
    of its tags and the steps of its series are never looked at.  Two std
    tables with the same values in the same places give the same band. *)
Theorem write_band_reads_std_values_only mean_dict std_dict std_dict' w :
  map to_numpy (dict_values std_dict) = map to_numpy (dict_values std_dict') ->
  write_band vadd vsub mean_dict std_dict w
  = write_band vadd vsub mean_dict std_dict' w.
Proof.
  unfold write_band. generalize (dict_values std_dict) (dict_values std_dict').
  intros vs vs'. revert vs vs' w.
  induction mean_dict as [|[tag means] mean_dict IH]; intros vs vs' w Heq.
  - done.
  - destruct vs as [|s vs], vs' as [|s' vs']; try discriminate; [done|].
    injection Heq as Hs Hrest. cbn [zip_with fold_left]. rewrite Hs.
    now apply IH.
Qed.
End BandPairing.

(** ** The table writer as a whole *)

Section TableRuns.
Local Open Scope list_scope.
Context {V : Type}.
Implicit Types (d : Dataset (V:=V)) (cs : CsvState (V:=V)).

(** A successful call: the state after. *)
Lemma write_csv_ok_state d path overwrite cs cs' :
  write_csv d path overwrite cs = (Ok tt, cs') ->
  endswith path ".csv" = true /\
  exists df,
    csv_table d = Ok df /\
    cs' = mkCsv (<[path := File]> (cs_fs cs)) (cs_files cs ++ [(path, df)]).
Proof.
  unfold write_csv, assert_. destruct (endswith path ".csv") eqn:Hcsv;
    [|unfold bind, raise; discriminate].
  unfold bind at 1. unfold ret at 1. unfold bind at 1. unfold lift_csv.
  rewrite guard_cases. intros H. split; [done|]. revert H.
  destruct (cs_fs cs !! path) as [n|] eqn:E.
  - destruct (decide (n = Dir [])); [discriminate|].
    destruct overwrite; [|discriminate].
    unfold looks_like_ours. rewrite Hcsv. cbn [orb].
    unfold bind, lift_result, to_csv, rm_rf. cbn [cs_fs cs_files].
    destruct (csv_table d) as [df|e]; [|discriminate].
    rewrite lookup_delete_eq, insert_delete_eq. intros [= <-]. eauto.
  - unfold bind, lift_result, to_csv. cbn [cs_fs cs_files].
    destruct (csv_table d) as [df|e]; [|discriminate].
    rewrite E. intros [= <-]. eauto.
Qed.



(** X17: writing again with [overwrite] unset.  After a successful call,
    any further call on the same path with [overwrite] unset fails with
    [FileExistsError], whatever the dataset, and changes nothing: the file
    written first stays. *)
Theorem write_csv_again_without_overwrite d d2 path overwrite cs cs' :
  write_csv d path overwrite cs = (Ok tt, cs') ->
  write_csv d2 path false cs'
  = (Raise (FileExistsError (exists_msg path)), cs').
Proof.
  intros H. apply write_csv_ok_state in H as (Hcsv & df & Hdf & ->).
  unfold write_csv, assert_. rewrite Hcsv.
  unfold bind at 1. unfold ret at 1. unfold bind at 1. unfold lift_csv.
  cbn [cs_fs cs_files].
  now rewrite (guard_keep path _ File) by (apply lookup_insert_eq || done).
Qed.


End TableRuns.

Section TableShape.
Local Open Scope list_scope.
Context {V : Type}.
Implicit Types (d : Dataset (V:=V)).

Lemma op_tag_columns_elem d op tag :
  (op, tag) ∈ op_tag_columns d ->
  exists dic, (op, dic) ∈ d /\ tag ∈ dict_keys dic.
Proof.
  unfold op_tag_columns. rewrite list_elem_of_In, in_flat_map.
  intros ([op' dic] & Hd & Hin). apply in_map_iff in Hin as (tag' & [= <- <-] & Ht).
  exists dic. split; now apply list_elem_of_In.
Qed.

Lemma op_tag_columns_NoDup d :
  dict_wf d ->
  (forall op dic, (op, dic) ∈ d -> dict_wf dic) ->
  NoDup (op_tag_columns d).
Proof.
  unfold dict_wf at 1, dict_keys at 1, op_tag_columns.
  induction d as [|[op dic] d IH]; [intros; apply NoDup_nil_2|].
  rewrite fmap_cons, NoDup_cons. cbn [fst flat_map]. intros [Hop Hd] Hin.
  apply NoDup_app. split; [|split].
  - apply (NoDup_fmap_2 (pair op)). apply (Hin op dic). left.
  - intros [op' tag] H1 H2.
    apply list_elem_of_In, in_map_iff in H1 as (tag' & [= <- <-] & _).
    apply op_tag_columns_elem in H2 as (dic' & Hd' & _). apply Hop.
    change op with (op, dic').1. now apply list_elem_of_fmap_2.
  - apply IH; [done|]. intros op' dic' H. apply (Hin op' dic'). now right.
Qed.

(** X20: the table is rectangular and its labels are unambiguous.  There
    is one column of cells per column label and one cell per step of the
    index in every column; when no operation and no tag within an
    operation is repeated, no (tag, operation) label occurs twice. *)
Theorem csv_table_rectangular d df :
  csv_table d = Ok df ->
  length (df_columns df) = length (df_values df) /\
  Forall (fun col => length col = length (df_index df)) (df_values df) /\
  (dict_wf d -> (forall op dic, (op, dic) ∈ d -> dict_wf dic) ->
   NoDup (df_columns df)).
Proof.
  intros Hdf. assert (d <> []) as Hd by (intros ->; discriminate Hdf).
  rewrite (csv_table_nonempty d Hd) in Hdf. injection Hdf as <-.
  cbn [df_columns df_values df_index]. split; [|split].
  - unfold swaplevel, op_tag_columns. rewrite length_map.
    clear Hd. generalize (table_index d). intros idx.
    induction d as [|[op dic] d IH]; [done|]. cbn [flat_map snd].
    rewrite !length_app, IH, !length_map. unfold dict_keys, dict_values.
    now rewrite !length_fmap.
  - apply Forall_forall. intros col Hcol.
    apply list_elem_of_In, in_flat_map in Hcol as ([op dic] & _ & Hcol).
    apply in_map_iff in Hcol as (s & <- & _). unfold series_column.
    apply length_map.
  - intros Hwf Htags. unfold swaplevel.
    assert (Inj (=) (=) (fun '(a, b) => (b, a) : string * string)) as Hinj
      by (intros [a b] [a' b'] [= -> ->]; done).
    apply (NoDup_fmap_2 _). now apply op_tag_columns_NoDup.
Qed.
End TableShape.

(** * More concrete runs *)

Module MoreExamples.
Import Sample Sample2.
Local Open Scope Z_scope.
Local Open Scope list_scope.

Lemma loss_wf : dict_wf loss_data.
Proof. apply (bool_decide_unpack _). reflexivity. Defined.


Lemma write_tb_events_again_with_overwrite_witness :
  let st' := (write_tb_events Z.add Z.sub "run" false (fresh loss_data)).2 in
  exists st'',
    write_tb_events Z.add Z.sub "run" true st' = (Ok tt, st'') /\
    st_sinks st''
    = st_sinks st' ++ [("run-mean", [Scalar "loss" 10 0; Scalar "loss" 5 1])].
Proof.
  intros st'.
  destruct (write_tb_events_again_with_overwrite Z.add Z.sub "run" false
              (fresh loss_data) st') as (st'' & Hrun & _ & _ & Hlogs).
  - apply loss_wf.
  - reflexivity.
  - exists st''. split; [exact Hrun|]. rewrite Hlogs. reflexivity.
Defined.

Lemma write_tb_events_again_without_overwrite_witness :
  let st' := (write_tb_events Z.add Z.sub "run" false (fresh loss_data)).2 in
  write_tb_events Z.add Z.sub "run" false st'
  = (Raise (FileExistsError (exists_msg "run-mean")), st').
Proof.
  intros st'.
  apply (write_tb_events_again_without_overwrite Z.add Z.sub "run" false
           (fresh loss_data) st' "mean" loss_mean []).
  - apply loss_wf.
  - reflexivity.
  - reflexivity.
Defined.

Lemma write_tb_events_fails_fast_witness :
  exists done_ more,
    expected_sinks Z.add Z.sub "run" loss_data = done_ ++ more /\
    more <> [] /\
    st_sinks (write_tb_events Z.add Z.sub "run" false (taken loss_data)).2 = done_.
Proof.
  destruct (write_tb_events_fails_fast Z.add Z.sub "run" false (taken loss_data)
              (FileExistsError (exists_msg "run-std"))
              (write_tb_events Z.add Z.sub "run" false (taken loss_data)).2)
    as (dn & more & H1 & H2 & H3); [reflexivity|].
  exists dn, more. split; [exact H1|]. split; [exact H2 | exact H3].
Defined.


Lemma write_tb_events_without_pair_witness :
  let out := write_tb_events Z.add Z.sub "run" false (fresh std_only) in
  st_data out.2 = std_only /\
  st_sinks out.2 = [("run-std", [Scalar "loss" 1 0; Scalar "loss" 2 1])].
Proof.
  intros out.
  destruct (write_tb_events_without_pair Z.add Z.sub "run" false
              (fresh std_only) out.1 out.2) as (Hd & Hok);
    [reflexivity | reflexivity |].
  split; [exact Hd|]. destruct (Hok eq_refl) as [Hs _]. rewrite Hs. reflexivity.
Defined.

Lemma write_tb_events_one_log_per_operation_witness :
  exists new,
    st_sinks (write_tb_events Z.add Z.sub "run" false (fresh loss_data)).2 = new /\
    length new = 2%nat /\ NoDup new.*1.
Proof.
  destruct (write_tb_events_one_log_per_operation Z.add Z.sub "run" false
              (fresh loss_data)
              (write_tb_events Z.add Z.sub "run" false (fresh loss_data)).2)
    as (new & Hs & Hlen & Hnd & _).
  - apply loss_wf.
  - reflexivity.
  - exists new. split; [exact Hs|]. split; [exact Hlen | exact Hnd].
Defined.

Lemma write_band_truncates_witness :
  write_band Z.add Z.sub (loss_mean ++ acc_extra) loss_std (mkWriter "run-std" [])
  = write_band Z.add Z.sub loss_mean loss_std (mkWriter "run-std" []).
Proof.
  apply (write_band_truncates Z.add Z.sub loss_mean loss_std
           (mkWriter "run-std" [])).
  reflexivity.
Defined.

Lemma write_band_reads_std_values_only_witness :
  write_band Z.add Z.sub loss_mean loss_std (mkWriter "run-std" [])
  = write_band Z.add Z.sub loss_mean renamed_std (mkWriter "run-std" []).
Proof.
  apply (write_band_reads_std_values_only Z.add Z.sub loss_mean loss_std
           renamed_std (mkWriter "run-std" [])).
  reflexivity.
Defined.



Lemma write_csv_again_without_overwrite_witness :
  let cs' := (write_csv ragged "run.csv" false no_csv).2 in
  write_csv loss_data "run.csv" false cs'
  = (Raise (FileExistsError (exists_msg "run.csv")), cs').
Proof.
  intros cs'.
  apply (write_csv_again_without_overwrite ragged loss_data "run.csv" false
           no_csv cs').
  reflexivity.
Defined.



Lemma csv_table_rectangular_witness :
  exists df,
    csv_table ragged = Ok df /\
    length (df_columns df) = length (df_values df) /\
    NoDup (df_columns df).
Proof.
  eexists. split; [reflexivity|].
  destruct (csv_table_rectangular ragged _ eq_refl) as (Hlen & _ & Hnd).
  split; [exact Hlen|]. apply Hnd.
  - apply (bool_decide_unpack _). reflexivity.
  - intros op dic Hin. apply (bool_decide_unpack _).
    apply elem_of_cons in Hin as [[= -> ->]|Hin]; [reflexivity|].
    apply list_elem_of_singleton in Hin as [= -> ->]. reflexivity.
Defined.
End MoreExamples.
